(** * atef: the passive checkout CLI ([atef/bin/check.py]) and the
      configuration-to-prepared lookup of the GUI ([atef/widgets/config/window.py])

    The Python code is embedded shallowly.  The generator
    [check_config_file] becomes a function to the list of the steps it
    performs when it is run to exhaustion: calls to its collaborators
    (logger, happi, check_device, ...) are recorded as events, and each
    [yield] as a [Yield] step, in program order.  [main] consumes that list
    the way its [for] loop consumes the generator. *)

From Stdlib Require Import ZArith Ascii.
From stdpp Require Import base option list strings gmap sorting.

Local Open Scope string_scope.
Local Open Scope Z_scope.
Local Open Scope list_scope.

(** ** Collaborators' data *)

(** Levels of Python's [logging] module. *)
Module logging.
Definition DEBUG : Z := 10.
Definition INFO : Z := 20.
Definition WARNING : Z := 30.
Definition ERROR : Z := 40.
End logging.

(** Modelled from the spec: the [Severity] enumeration is declared in
    [atef.check], which is not among the sources; the spec gives it as the
    ordered enumeration success < warning < error < internal_error. *)
Inductive Severity : Set :=
  | success
  | warning
  | error
  | internal_error.

Definition severity_value (s : Severity) : Z :=
  match s with
  | success => 0
  | warning => 1
  | error => 2
  | internal_error => 3
  end.

(** [a <= b] on the enumeration. *)
Definition severity_le (a b : Severity) : bool :=
  severity_value a <=? severity_value b.

(** [severity.name] *)
Definition severity_name (s : Severity) : string :=
  match s with
  | success => "success"
  | warning => "warning"
  | error => "error"
  | internal_error => "internal_error"
  end.

Global Instance Severity_eq_dec : EqDecision Severity.
Proof. solve_decision. Defined.

Definition severity_of_nat (n : nat) : option Severity :=
  match n with
  | O => Some success
  | 1%nat => Some warning
  | 2%nat => Some error
  | 3%nat => Some internal_error
  | _ => None
  end.

Global Instance Severity_countable : Countable Severity.
Proof.
  refine (inj_countable (fun s => Z.to_nat (severity_value s)) severity_of_nat _).
  intros []; reflexivity.
Defined.

(** Modelled from the spec: [Result] is declared in [atef.check]; the code
    under study reads its [severity] and [reason] attributes only. *)
Record Result : Set := mkResult {
  severity : Severity;
  reason : string;
}.

(** ** Observable steps of a run *)

(** A call the CLI makes to one of its collaborators. *)
Inductive Event : Set :=
  (** [logger.log(level, fmt, *args)]; [logger.debug] and the like fix the level *)
  | Log (level : Z) (fmt : string) (args : list string)
  (** [pv_config_to_device_config(pv_config)], by the configuration's name *)
  | PvToDevice (name : option string)
  (** [dev_cls(name=...)] *)
  | NewDevice (cls_name : string) (name : string)
  (** [check_device(dev, checks)], by the device's name *)
  | CheckDevice (dev_name : string)
  (** [happi.Client.from_config()] *)
  | HappiFromConfig
  (** [client[dev_name]] *)
  | HappiGetItem (dev_name : string)
  (** [search_result.get()] for the entry found under [dev_name] *)
  | HappiGet (dev_name : string)
  (** [ophyd_cleanup()] *)
  | OphydCleanup.

Global Instance Event_eq_dec : EqDecision Event.
Proof. solve_decision. Defined.

(** The events that reach the device database. *)
Definition is_happi_event (e : Event) : bool :=
  match e with
  | HappiFromConfig | HappiGetItem _ | HappiGet _ => true
  | _ => false
  end.

(** The events of the PV-only path. *)
Definition is_pv_event (e : Event) : bool :=
  match e with
  | PvToDevice _ | NewDevice _ _ => true
  | _ => false
  end.

(** Python truthiness of an [Optional[Sequence[str]]]: [None] and the
    empty sequence are falsy. *)
Definition seq_truthy (filtered_devices : option (list string)) : bool :=
  match filtered_devices with
  | None | Some [] => false
  | Some (_ :: _) => true
  end.

(** [name in filtered_devices], for a name that may be [None] (a PV
    configuration's name is optional; a sequence of strings never holds
    [None]). *)
Definition name_in (name : option string) (filtered_devices : option (list string)) : bool :=
  match name, filtered_devices with
  | Some n, Some F => bool_decide (n ∈ F)
  | _, _ => false
  end.

(** The test of lines 56 and 74:
    [filtered_devices and name not in filtered_devices]. *)
Definition filtered_out (filtered_devices : option (list string)) (name : option string) : bool :=
  seq_truthy filtered_devices && negb (name_in name filtered_devices).

(** [x or default] on an optional string: [None] and the empty string are falsy. *)
Definition str_or (x : option string) (default : string) : string :=
  match x with
  | Some s => if bool_decide (s = "") then default else s
  | None => default
  end.

(** ** Configuration model, as far as the CLI reads it

    [PVConfiguration], [DeviceConfiguration] and [ConfigurationFile] are
    declared in [atef.check]; the fields below are the attributes that
    [check.py] reads.  The type of the [checks] attribute stays abstract. *)

Record PVConfiguration (Checks : Type) : Type := mkPVConfiguration {
  pv_name : option string;
  pv_description : option string;
  pv_checks : Checks;
}.
Arguments mkPVConfiguration {Checks}.
Arguments pv_name {Checks}.
Arguments pv_description {Checks}.
Arguments pv_checks {Checks}.

Record DeviceConfiguration (Checks : Type) : Type := mkDeviceConfiguration {
  dc_description : option string;
  dc_checks : Checks;
}.
Arguments mkDeviceConfiguration {Checks}.
Arguments dc_description {Checks}.
Arguments dc_checks {Checks}.

(** [config.pvs] is a sequence; [config.devices] is a dict from device name
    to configuration, iterated with [.items()] in insertion order, so it is
    kept as the list of its items. *)
Record ConfigurationFile (Checks : Type) : Type := mkConfigurationFile {
  pvs : list (PVConfiguration Checks);
  devices : list (string * DeviceConfiguration Checks);
}.
Arguments mkConfigurationFile {Checks}.
Arguments pvs {Checks}.
Arguments devices {Checks}.

(** [AnyConfiguration = Union[PVConfiguration, DeviceConfiguration]] *)
Inductive AnyConfiguration (Checks : Type) : Type :=
  | PVCfg (c : PVConfiguration Checks)
  | DevCfg (c : DeviceConfiguration Checks).
Arguments PVCfg {Checks}.
Arguments DevCfg {Checks}.

Definition any_description {Checks} (c : AnyConfiguration Checks) : option string :=
  match c with
  | PVCfg c => pv_description c
  | DevCfg c => dc_description c
  end.

(** What [client[dev_name]] finds: an entry whose [get()] returns a device,
    or one whose [get()] raises an exception of class [ex_class] with
    message [ex_msg]. *)
Inductive SearchResult (Device : Type) : Type :=
  | Loadable (dev : Device)
  | Broken (ex_class ex_msg : string).
Arguments Loadable {Device}.
Arguments Broken {Device}.

(** The tuple the generator yields: [(dev, config, severity, results)]. *)
Definition Entry (Checks Device : Type) : Type :=
  (Device * AnyConfiguration Checks * Severity * list Result)%type.


Definition entry_config {Checks Device} (e : Entry Checks Device) : AnyConfiguration Checks :=
  e.1.1.2.

Inductive Step (Checks Device : Type) : Type :=
  | Ev (e : Event)
  | Yield (entry : Entry Checks Device).
Arguments Ev {Checks Device}.
Arguments Yield {Checks Device}.

(** The entries a run yields, in order. *)
Definition yields {Checks Device} (steps : list (Step Checks Device)) : list (Entry Checks Device) :=
  omap (fun s => match s with Yield e => Some e | Ev _ => None end) steps.

(** The collaborator calls of a run, in order. *)
Definition events {Checks Device} (steps : list (Step Checks Device)) : list Event :=
  omap (fun s => match s with Ev e => Some e | Yield _ => None end) steps.

(** [%s] of an optional string. *)
Definition str_of (x : option string) : string :=
  match x with
  | Some s => s
  | None => "None"
  end.

(** How a call ends. *)
Inductive Outcome : Set :=
  | Returns (value : option Severity)   (* [None] is Python's [None] *)
  | Raises (exception : string).

Module check.
Section Checkout.

Context {Checks Device DevCls : Type}.

(** [dev.name], [dev_cls.__name__], [dev_cls(name=...)] *)
Variable device_name : Device -> string.
Variable cls_name : DevCls -> string.
Variable new_device : DevCls -> string -> Device.

(** Imported from [atef.check], not among the sources. *)
Variable pv_config_to_device_config :
  PVConfiguration Checks -> DevCls * DeviceConfiguration Checks.
Variable check_device : Device -> Checks -> Severity * list Result.

(** The database that [happi.Client.from_config()] opens. *)
Variable happi : gmap string (SearchResult Device).

(** [logger.isEnabledFor] *)
Variable isEnabledFor : Z -> bool.

Local Abbreviation Step := (Step Checks Device).
Local Abbreviation Entry := (Entry Checks Device).

(** Body of the loop over [config.pvs] (lines 55-67). *)
Definition check_pv_config (filtered_devices : option (list string))
    (pv_config : PVConfiguration Checks) : list Step :=
  if filtered_out filtered_devices (pv_name pv_config) then
    [Ev (Log logging.DEBUG "Skipping filtered-out PV-only configuration %s"
           [str_of (pv_name pv_config)])]
  else
    let '(dev_cls, dev_config) := pv_config_to_device_config pv_config in
    let dev := new_device dev_cls (str_or (pv_name pv_config) "PVConfig") in
    let '(severity, results) := check_device dev (dc_checks dev_config) in
    [Ev (PvToDevice (pv_name pv_config));
     Ev (Log logging.DEBUG "PV-only configuration %s -> %s"
           [str_of (pv_name pv_config); cls_name dev_cls]);
     Ev (NewDevice (cls_name dev_cls) (str_or (pv_name pv_config) "PVConfig"));
     Ev (CheckDevice (device_name dev));
     Yield (dev, PVCfg pv_config, severity, results)].

(** Body of the loop over [config.devices.items()] (lines 73-101). *)
Definition check_dev_config (filtered_devices : option (list string))
    (client : gmap string (SearchResult Device))
    (item : string * DeviceConfiguration Checks) : list Step :=
  let '(dev_name, dev_config) := item in
  if filtered_out filtered_devices (Some dev_name) then
    [Ev (Log logging.DEBUG "Skipping filtered-out device %s" [dev_name])]
  else
    Ev (HappiGetItem dev_name) ::
    match client !! dev_name with
    | None =>   (* KeyError *)
        [Ev (Log logging.ERROR "Device %s not in happi database; skipping" [dev_name])]
    | Some search_result =>
        Ev (HappiGet dev_name) ::
        match search_result with
        | Broken ex_class ex_msg =>
            [Ev (Log logging.ERROR
                   "Device %s invalid in happi database; skipping (%s: %s)"
                   [dev_name; ex_class; ex_msg]);
             Ev (Log logging.DEBUG "Failed to instantiate device %r" [dev_name])]
        | Loadable dev =>
            let '(severity, results) := check_device dev (dc_checks dev_config) in
            [Ev (CheckDevice (device_name dev));
             Yield (dev, DevCfg dev_config, severity, results)]
        end
    end.

Definition check_config_file (config : ConfigurationFile Checks)
    (filtered_devices : option (list string)) : list Step :=
  (pvs config ≫= check_pv_config filtered_devices) ++
  match devices config with
  | [] => []   (* [if not config.devices: return] *)
  | _ :: _ =>
      Ev HappiFromConfig ::
      (devices config ≫= check_dev_config filtered_devices happi)
  end.

(** The module-level dict of lines 130-135. *)
Definition default_severity_to_log_level : gmap Severity Z :=
  {[ success := logging.DEBUG;
     warning := logging.WARNING;
     error := logging.ERROR;
     internal_error := logging.ERROR ]}.

(** [severity_to_log_level or default_severity_to_log_level]: [None] and
    the empty dict are falsy. *)
Definition level_map_or_default (severity_to_log_level : option (gmap Severity Z))
    : gmap Severity Z :=
  match severity_to_log_level with
  | Some m => if decide (m = ∅) then default_severity_to_log_level else m
  | None => default_severity_to_log_level
  end.

(** Line 115. *)
Definition passed_or_failed (severity : Severity) : string :=
  if severity_le severity warning then "passed" else "FAILED".

(** The [logger.info] call of lines 116-122. *)
Definition header (device : Device) (severity : Severity)
    (config : AnyConfiguration Checks) : Event :=
  Log logging.INFO "Device %s (%s) %s with severity %s"
    [device_name device;
     str_or (any_description config) "no description";
     passed_or_failed severity;
     severity_name severity].

(** The loop of lines 123-127; a missing key stops it with a [KeyError]. *)
Fixpoint log_each (severity_to_log_level : gmap Severity Z) (results : list Result)
    : list Event * Outcome :=
  match results with
  | [] => ([], Returns None)
  | result :: rest =>
      match severity_to_log_level !! severity result with
      | None => ([], Raises "KeyError")
      | Some log_level =>
          if negb (isEnabledFor log_level) then
            log_each severity_to_log_level rest
          else
            let '(calls, outcome) := log_each severity_to_log_level rest in
            (Log log_level (reason result) [] :: calls, outcome)
      end
  end.

Definition log_results (device : Device) (severity : Severity)
    (config : AnyConfiguration Checks) (results : list Result)
    (severity_to_log_level : option (gmap Severity Z)) : list Event * Outcome :=
  let '(calls, outcome) :=
    log_each (level_map_or_default severity_to_log_level) results in
  (header device severity config :: calls, outcome).

(** The [for] loop of [main] over the generator: the generator's own steps
    pass through, and each yielded tuple is handed to [log_results]; an
    exception there ends the loop. *)
Fixpoint consume (steps : list Step) : list Event * Outcome :=
  match steps with
  | [] => ([], Returns None)
  | Ev e :: rest =>
      let '(calls, outcome) := consume rest in (e :: calls, outcome)
  | Yield (dev, config, severity, results) :: rest =>
      match log_results dev severity config results None with
      | (logged, Returns _) =>
          let '(calls, outcome) := consume rest in (logged ++ calls, outcome)
      | (logged, Raises ex) => (logged, Raises ex)
      end
  end.

(** [main], from the deserialized configuration on (reading and decoding
    the file is the codec's business); the [finally] clause runs whatever
    the loop's outcome. The function has no [return] statement. *)
Definition main (config : ConfigurationFile Checks)
    (filtered_devices : option (list string)) (cleanup : bool)
    : list Event * Outcome :=
  let '(calls, outcome) := consume (check_config_file config filtered_devices) in
  (calls ++ (if cleanup then [OphydCleanup] else []), outcome).

(** *** What a run is expected to yield *)

(** A configuration is retained when the filter test does not skip it. *)
Definition retained (filtered_devices : option (list string)) (name : option string) : bool :=
  negb (filtered_out filtered_devices name).

(** The tuple for a PV configuration. *)
Definition pv_entry (pv_config : PVConfiguration Checks) : Entry :=
  let '(dev_cls, dev_config) := pv_config_to_device_config pv_config in
  let dev := new_device dev_cls (str_or (pv_name pv_config) "PVConfig") in
  let '(severity, results) := check_device dev (dc_checks dev_config) in
  (dev, PVCfg pv_config, severity, results).

(** The database has an entry under [dev_name] whose [get()] succeeds. *)
Definition resolves (dev_name : string) : bool :=
  match happi !! dev_name with
  | Some (Loadable _) => true
  | _ => false
  end.

(** The tuple for a device configuration, if its device resolves. *)
Definition dev_entry (item : string * DeviceConfiguration Checks) : option Entry :=
  match happi !! item.1 with
  | Some (Loadable dev) =>
      let '(severity, results) := check_device dev (dc_checks item.2) in
      Some (dev, DevCfg item.2, severity, results)
  | _ => None
  end.


(** What the logger lets through. *)
Definition emitted (calls : list Event) : list Event :=
  List.filter
    (fun e => match e with
              | Log level _ _ => isEnabledFor level
              | _ => true
              end) calls.

End Checkout.

(** The severity-to-level table of the spec:
    success -> debug, warning -> warning, error and internal_error -> error. *)
Definition log_level_of (s : Severity) : Z :=
  match s with
  | success => logging.DEBUG
  | warning => logging.WARNING
  | error | internal_error => logging.ERROR
  end.

(** The worst severity of a list of entries, [success] for none. *)
Definition severity_max (a b : Severity) : Severity :=
  if severity_le a b then b else a.


(** *** What [main] makes of a run *)



(** *** Reading a run's calls *)

(** The names given to [client[...]], in call order. *)
Definition getitem_names (calls : list Event) : list string :=
  omap (fun e => match e with HappiGetItem n => Some n | _ => None end) calls.

(** The names whose search result had [get()] called, in call order. *)
Definition get_names (calls : list Event) : list string :=
  omap (fun e => match e with HappiGet n => Some n | _ => None end) calls.

(** The names of the devices given to [check_device], in call order. *)
Definition checked_names (calls : list Event) : list string :=
  omap (fun e => match e with CheckDevice n => Some n | _ => None end) calls.

(** The [logger.log] call that [log_results] makes for one result under a
    given table, if the table has the result's severity and the logger is
    enabled for that level. *)
Definition result_line (isEnabledFor : Z -> bool) (table : gmap Severity Z)
    (result : Result) : option Event :=
  match table !! severity result with
  | Some log_level =>
      if isEnabledFor log_level then Some (Log log_level (reason result) []) else None
  | None => None
  end.

(** [dev_name in client]: the database has an entry under that name. *)
Definition in_database {Device} (happi : gmap string (SearchResult Device))
    (dev_name : string) : bool :=
  bool_decide (is_Some (happi !! dev_name)).

End check.

(** ** [atef/widgets/config/window.py] *)

Module window.
Section MatchInListMapping.

Context {A B : Type}.

(** The element test that both [value in list1] and [list1.index(value)]
    make on each element in turn (identity, then [==]). *)
Variable py_eq : A -> A -> bool.

(** [value in l] *)
Fixpoint contains (value : A) (l : list A) : bool :=
  match l with
  | [] => false
  | x :: l' => py_eq x value || contains value l'
  end.

(** [l.index(value)]: the first position that passes the test; [None]
    stands for the [ValueError] raised when there is none. *)
Fixpoint index (value : A) (l : list A) : option nat :=
  match l with
  | [] => None
  | x :: l' => if py_eq x value then Some O else S <$> index value l'
  end.

(** What a call of [match_in_list_mapping] ends with. *)
Inductive Returned : Type :=
  | RNone
  | RValue (b : B)
  | RValueError
  | RIndexError.

Definition match_in_list_mapping (value : A) (list1 : list A) (list2 : list B) : Returned :=
  if negb (contains value list1) then RNone
  else
    match index value list1 with
    | None => RValueError
    | Some i =>
        match list2 !! i with
        | Some b => RValue b
        | None => RIndexError
        end
    end.

End MatchInListMapping.

(** *** Python [str] operations used by [Window] *)

(** [c in s] for a one-character string [c]. *)
Fixpoint contains_char (c : Ascii.ascii) (s : string) : bool :=
  match s with
  | EmptyString => false
  | String a s' => bool_decide (a = c) || contains_char c s'
  end.

(** [s.rfind(c)] for a one-character string [c]: the highest index at
    which [c] occurs, [-1] if it does not occur. *)
Fixpoint rfind (c : Ascii.ascii) (s : string) : Z :=
  match s with
  | EmptyString => -1
  | String a s' =>
      let r := rfind c s' in
      if 0 <=? r then r + 1
      else if bool_decide (a = c) then 0 else -1
  end.

(** [s[i:]] for [i >= 0]. *)
Fixpoint slice_from (i : nat) (s : string) : string :=
  match i, s with
  | O, _ => s
  | S i', String _ s' => slice_from i' s'
  | S _, EmptyString => EmptyString
  end.

(** [s.endswith(suffix)] *)
Fixpoint endswith (s suffix : string) : bool :=
  if bool_decide (s = suffix) then true
  else
    match s with
    | EmptyString => false
    | String _ s' => endswith s' suffix
    end.

(** [os.path.basename] of [posixpath]:
    [i = p.rfind('/') + 1; return p[i:]]. *)
Definition basename (p : string) : string :=
  slice_from (Z.to_nat (rfind "/"%char p + 1)) p.

(** *** [Window] *)

(** Class attributes of [Window]. *)
Definition user_default_filename : string := "untitled".
Definition user_filename_ext : string := "json".

(** [Window.get_tab_name] (lines 84-92); ['.'.join((filename, ext))] is
    [filename + '.' + ext]. *)
Definition get_tab_name (filename : option string) : string :=
  let filename :=
    match filename with
    | None => user_default_filename
    | Some f => f
    end in
  let filename :=
    if negb (contains_char "."%char filename)
    then filename +:+ "." +:+ user_filename_ext
    else filename in
  basename filename.

(** What [Window.save_as] does to the world around it. *)
Inductive SaveEvent (Serialized : Type) : Type :=
  (** [logger.exception(msg)] *)
  | LogException (msg : string)
  (** [QFileDialog.getSaveFileName(...)] *)
  | AskSaveFileName
  (** [open(filename, 'w')], [json.dump], [fd.write], all succeeding *)
  | WriteFile (filename : string) (content : Serialized)
  (** the same block raising [OSError]: at [open], which leaves the file
      alone, or after it, when the file has been created or truncated *)
  | WriteRaised (filename : string)
  (** [self.tab_widget.setTabText(currentIndex, text)] *)
  | SetTabText (text : string).
Arguments LogException {Serialized}.
Arguments AskSaveFileName {Serialized}.
Arguments WriteFile {Serialized}.
Arguments WriteRaised {Serialized}.
Arguments SetTabText {Serialized}.

Section Save.

Context {Serialized : Type}.

(** [Window.serialize_tree] (lines 209-219): [serialize] either gives the
    serialized data or raises; the exception is logged and [None] returned. *)
Definition serialize_tree (serialize_result : option Serialized)
    : list (SaveEvent Serialized) * option Serialized :=
  match serialize_result with
  | Some serialized => ([], Some serialized)
  | None => ([LogException "Error serializing file"], None)
  end.

(** [Window.save_as] (lines 174-207) on the current tree, whose
    [full_path] is threaded through.  [dialog_answer] is the file name the
    dialog would return (the empty string when the user cancels), and
    [write_ok] tells whether the [try] block that opens and writes the file
    succeeds or raises [OSError]. *)
Definition save_as (serialize_result : option Serialized)
    (filename : option string) (dialog_answer : string) (write_ok : bool)
    (full_path : option string)
    : list (SaveEvent Serialized) * option string :=
  let '(logged, serialized) := serialize_tree serialize_result in
  match serialized with
  | None => (logged, full_path)
  | Some serialized =>
      let '(asked, filename) :=
        match filename with
        | None => ([AskSaveFileName], dialog_answer)
        | Some f => ([], f)
        end in
      let filename :=
        if negb (endswith filename ".json") then filename +:+ ".json" else filename in
      if write_ok then
        (logged ++ asked ++
           [WriteFile filename serialized; SetTabText (get_tab_name (Some filename))],
         Some filename)
      else
        (logged ++ asked ++
           [WriteRaised filename; LogException ("Error saving file " +:+ filename)],
         full_path)
  end.

(** [Window.save] (lines 163-172). *)
Definition save (serialize_result : option Serialized)
    (dialog_answer : string) (write_ok : bool) (full_path : option string)
    : list (SaveEvent Serialized) * option string :=
  save_as serialize_result full_path dialog_answer write_ok full_path.

(** The names of the files written in full. *)
Definition written_files (calls : list (SaveEvent Serialized)) : list string :=
  omap (fun e => match e with WriteFile f _ => Some f | _ => None end) calls.

End Save.

(** *** [RunTree._swap_to_run_widgets], up to [self.item_config_list]
    (lines 385-412) *)

Section SwapToRunWidgets.

Context {A Group Comparison Item : Type}.

(** The element test of [in] and [index], as for [match_in_list_mapping]. *)
Variable py_eq : A -> A -> bool.

(** [grp.config], [comp.comparison] and [item.widget.data] *)
Variable group_config : Group -> A.
Variable comparison_of : Comparison -> A.
Variable widget_data : Item -> A.

(** What [prep_list] holds. *)
Inductive Prepared : Type :=
  | PreparedGroup (grp : Group)
  | PreparedComparison (comp : Comparison).

(** What an item is paired with: [None], a prepared object, or the item's
    own widget data. *)
Inductive Paired : Type :=
  | PairedNone
  | PairedPrepared (prep : Prepared)
  | PairedData (data : A).

(** The configuration a prepared object was made from. *)
Definition prepared_config (prep : Prepared) : A :=
  match prep with
  | PreparedGroup grp => group_config grp
  | PreparedComparison comp => comparison_of comp
  end.

(** The two [for] loops over [walk_groups()] and [walk_comparisons()],
    appending to [prep_list] and [config_list]; the result is
    [(config_list, prep_list)]. *)
Definition gather (groups : list Group) (comparisons : list Comparison)
    : list A * list Prepared :=
  let after_groups :=
    fold_left
      (fun '(config_list, prep_list) grp =>
         (config_list ++ [group_config grp], prep_list ++ [PreparedGroup grp]))
      groups ([], []) in
  fold_left
    (fun '(config_list, prep_list) comp =>
       (config_list ++ [comparison_of comp], prep_list ++ [PreparedComparison comp]))
    comparisons after_groups.

(** Python truthiness of a list. *)
Definition list_truthy {X} (l : list X) : bool :=
  match l with
  | [] => false
  | _ :: _ => true
  end.

(** The [while] loop over the tree's items; [inl] names the exception
    that [match_in_list_mapping] raised, if it raised one. *)
Fixpoint pair_items (config_list : list A) (prep_list : list Prepared)
    (items : list Item) : string + list (Item * Paired) :=
  match items with
  | [] => inr []
  | item :: rest =>
      match match_in_list_mapping py_eq (widget_data item) config_list prep_list with
      | RValueError => inl "ValueError"
      | RIndexError => inl "IndexError"
      | returned =>
          let paired :=
            if list_truthy config_list && list_truthy prep_list then
              match returned with
              | RValue prep => PairedPrepared prep
              | _ => PairedNone
              end
            else PairedData (widget_data item) in
          match pair_items config_list prep_list rest with
          | inl ex => inl ex
          | inr pairs => inr ((item, paired) :: pairs)
          end
      end
  end.

(** [self.item_config_list] as [_swap_to_run_widgets] sets it.
    [is_configuration_file] is
    [isinstance(self.config_file, ConfigurationFile)]; [groups] and
    [comparisons] are what the prepared file's [walk_groups()] and
    [walk_comparisons()] give; [items] are the tree's items in the
    iterator's order. *)
Definition swap_item_config_list (is_configuration_file : bool)
    (groups : list Group) (comparisons : list Comparison) (items : list Item)
    : string + list (Item * Paired) :=
  let '(config_list, prep_list) :=
    if is_configuration_file then gather groups comparisons else ([], []) in
  pair_items config_list prep_list items.

End SwapToRunWidgets.
End window.

(** ** [atef/widgets/config/page.py] *)

Module page.
Section AtefItem.

Context {Widget ItemCls WidgetCls : Type}.

(** A tree item with its chain of parents.  [parent_tree_item] is another
    [AtefItem], or ([None] here) the tree's invisible root item, a plain
    [QTreeWidgetItem] that has no [parent_tree_item] attribute.  An item
    gets its parent when it is constructed, so the chain is finite. *)
Inductive AtefItem : Type :=
  mkAtefItem (text0 : string) (item_cls : ItemCls) (widget : option Widget)
             (parent_tree_item : option AtefItem).

Definition widget (item : AtefItem) : option Widget :=
  match item with mkAtefItem _ _ w _ => w end.

Definition item_cls (item : AtefItem) : ItemCls :=
  match item with mkAtefItem _ c _ _ => c end.

Definition parent_tree_item (item : AtefItem) : option AtefItem :=
  match item with mkAtefItem _ _ _ p => p end.

(** [isinstance(widget, cls)] for a widget, and [isinstance(item, cls)]
    by the item's class. *)
Variable isinstance_widget : Widget -> WidgetCls -> bool.
Variable isinstance_item : ItemCls -> ItemCls -> bool.

(** The [while] loop shared by the two searches, from [ancestor] upwards. *)
Fixpoint climb (test : AtefItem -> bool) (ancestor : AtefItem) : option AtefItem :=
  if test ancestor then Some ancestor
  else
    match ancestor with
    | mkAtefItem _ _ _ (Some parent) => climb test parent
    | mkAtefItem _ _ _ None => None
    end.

(** [isinstance(getattr(ancestor, "widget", None), cls)] *)
Definition has_widget_of (cls : WidgetCls) (ancestor : AtefItem) : bool :=
  match widget ancestor with
  | Some w => isinstance_widget w cls
  | None => false
  end.

(** [AtefItem.find_ancestor_by_widget] (lines 104-113) *)
Definition find_ancestor_by_widget (self : AtefItem) (cls : WidgetCls) : option AtefItem :=
  match parent_tree_item self with
  | Some ancestor => climb (has_widget_of cls) ancestor
  | None => None
  end.

(** [AtefItem.find_ancestor_by_item] (lines 115-123) *)
Definition find_ancestor_by_item (self : AtefItem) (cls : ItemCls) : option AtefItem :=
  match parent_tree_item self with
  | Some ancestor => climb (fun a => isinstance_item (item_cls a) cls) ancestor
  | None => None
  end.

(** The ancestors of an item, nearest first. *)
Fixpoint ancestors (item : AtefItem) : list AtefItem :=
  match item with
  | mkAtefItem _ _ _ (Some parent) => parent :: ancestors parent
  | mkAtefItem _ _ _ None => []
  end.

End AtefItem.
End page.

(** ** [atef/pyepics_compat.py] *)

Module pyepics_compat.

(** The Python values that pass through the dicts of a
    [PyepicsPvCompatibility]; [VSelf] is the PV object itself and [VOther]
    any value of the caller's. *)
Inductive PyVal : Set :=
  | VNone
  | VBool (b : bool)
  | VInt (z : Z)
  | VStr (s : string)
  | VSelf
  | VTuple2 (a b : PyVal)
  | VOther (tag : nat).

(** [wrap_callback(dispatcher, event_type, cb)]: the callable that hands
    [cb] to the dispatcher's thread for [event_type]; callables are told
    apart by a number. *)
Record Wrapped : Set := wrap_callback {
  event_type : string;
  wrapped : nat;
}.

(** A call of a wrapped callback. *)
Record Call : Type := mkCall {
  callee : Wrapped;
  positional : list PyVal;
  keywords : gmap string PyVal;
}.

(** The [callback] argument of [__init__]: a tuple or list of objects,
    each callable ([Some]) or not ([None]); one callable; or anything else. *)
Inductive CallbackArg : Set :=
  | Several (callbacks : list (option nat))
  | Single (callback : nat)
  | NotCallable.

(** [PyepicsPvCompatibility._fields]: between ['lower_ctrl_limit'] and
    ['lower_disp_limit'] the source has no comma, and Python joins adjacent
    string literals. *)
Definition _fields : list string :=
  [ "access"; "char_value"; "chid"; "count"; "enum_strs"; "ftype"; "host";
    "lower_alarm_limit";
    "lower_ctrl_limit" +:+ "lower_disp_limit";
    "lower_warning_limit"; "nanoseconds"; "posixseconds"; "precision";
    "pvname"; "read_access"; "severity"; "status"; "timestamp"; "units";
    "upper_alarm_limit"; "upper_ctrl_limit"; "upper_disp_limit";
    "upper_warning_limit"; "value"; "write_access" ].

(** The attributes of a [PyepicsPvCompatibility] that its methods read or
    write after construction ([verbose], [form], [auto_monitor],
    [as_string], [connection_timeout], [_reference_count], [_dispatcher]
    and [_referrer] are stored by [__init__] and used by none of them). *)
Record PV : Type := mkPV {
  pvname : string;
  callbacks : gmap Z (Wrapped * gmap string PyVal);
  _user_max_count : option Z;
  _args : gmap string PyVal;
  access_callbacks : list Wrapped;
  connected : bool;
  connection_callbacks : list Wrapped;
}.

Definition int_or_none (x : option Z) : PyVal :=
  match x with
  | Some z => VInt z
  | None => VNone
  end.

(** [{}.fromkeys(keys)]: every key mapped to [None]. *)
Definition fromkeys (keys : list string) : gmap string PyVal :=
  foldr (fun k m => <[k := VNone]> m) ∅ keys.

(** [d.update(other)]: the entries of [other] win. *)
Definition update (d other : gmap string PyVal) : gmap string PyVal :=
  other ∪ d.

(** The dict comprehension of lines 129-133 over [enumerate(callback)],
    counting from [i]. *)
Fixpoint enumerate_callables (i : Z) (callback : list (option nat))
    : gmap Z (Wrapped * gmap string PyVal) :=
  match callback with
  | [] => ∅
  | Some cb :: rest =>
      <[i := (wrap_callback "monitor" cb, ∅)]> (enumerate_callables (i + 1) rest)
  | None :: rest => enumerate_callables (i + 1) rest
  end.

(** [__init__] (lines 103-152), up to its last line, which hands
    [_make_connection] to the dispatcher. *)
Definition __init__ (pvname : string) (callback : CallbackArg) (count : option Z)
    (connection_callback access_callback : option nat) : PV :=
  {| pvname := pvname;
     callbacks :=
       match callback with
       | Several cbs => enumerate_callables 0 cbs
       | Single cb => {[ 0 := (wrap_callback "monitor" cb, ∅) ]}
       | NotCallable => ∅
       end;
     _user_max_count := count;
     _args :=
       update (fromkeys _fields)
         {[ "pvname" := VStr pvname;
            "count" := int_or_none count;
            "nelm" := VInt (-1);
            "type" := VStr "unknown";
            "typefull" := VStr "unknown";
            "access" := VStr "unknown" ]};
     access_callbacks :=
       match access_callback with
       | Some cb => [wrap_callback "metadata" cb]
       | None => []
       end;
     connected := false;
     connection_callbacks :=
       match connection_callback with
       | Some cb => [wrap_callback "metadata" cb]
       | None => []
       end |}.

(** [_mark_as_connected] (lines 154-160); the [connected] argument is
    accepted and not used. *)
Definition _mark_as_connected (self : PV) (connected : bool) : PV * list Call :=
  let self' :=
    {| pvname := pvname self;
       callbacks := callbacks self;
       _user_max_count := _user_max_count self;
       _args := _args self;
       access_callbacks := access_callbacks self;
       connected := true;
       connection_callbacks := connection_callbacks self |} in
  (self',
   map (fun cb =>
          mkCall cb []
            {[ "pvname" := VStr (pvname self); "conn" := VBool true; "pv" := VSelf ]})
       (connection_callbacks self) ++
   map (fun cb => mkCall cb [VBool true; VBool false] {[ "pv" := VSelf ]})
       (access_callbacks self)).

(** [run_callback] (lines 170-180); a missing index is the [KeyError] that
    is swallowed. The stored callable is a wrapped one, hence callable. *)
Definition run_callback (self : PV) (index : Z) : list Call :=
  match callbacks self !! index with
  | None => []
  | Some (fcn, kwargs) =>
      let kwd := _args self in
      let kwd := update kwd kwargs in
      let kwd := <["cb_info" := VTuple2 (VInt index) VSelf]> kwd in
      [mkCall fcn [] kwd]
  end.

(** [sorted(list(self.callbacks))] *)
Definition sorted_indices (self : PV) : list Z :=
  merge_sort Z.le (map_to_list (callbacks self)).*1.

(** [run_callbacks] (lines 166-168) *)
Definition run_callbacks (self : PV) : list Call :=
  sorted_indices self ≫= run_callback self.

(** [max(self.callbacks.keys())], for a dict that is not empty. *)
Definition max_key (m : gmap Z (Wrapped * gmap string PyVal)) : Z :=
  match (map_to_list m).*1 with
  | [] => 0
  | k :: ks => foldr Z.max k ks
  end.

(** [add_callback] (lines 182-198): the object after the call, the value
    returned ([None] for Python's [None]) and the calls made.
    [callback] is [Some] for a callable. *)
Definition add_callback (self : PV) (callback : option nat) (index : option Z)
    (run_now : bool) (kwargs : gmap string PyVal) : PV * option Z * list Call :=
  match callback with
  | None => (self, None, [])
  | Some cb =>
      let callback := wrap_callback "monitor" cb in
      let index :=
        match index with
        | Some i => i
        | None =>
            if bool_decide (0 < size (callbacks self))%nat
            then 1 + max_key (callbacks self)
            else 1
        end in
      let self' :=
        {| pvname := pvname self;
           callbacks := <[index := (callback, kwargs)]> (callbacks self);
           _user_max_count := _user_max_count self;
           _args := _args self;
           access_callbacks := access_callbacks self;
           connected := connected self;
           connection_callbacks := connection_callbacks self |} in
      (self', Some index,
       if run_now && connected self then run_callback self' index else [])
  end.

(** [_getarg] (lines 200-201) *)
Definition _getarg (self : PV) (arg : string) : PyVal :=
  default VNone (_args self !! arg).

(** [get_ctrlvars] (lines 241-242): a copy of [_args]. *)
Definition get_ctrlvars (self : PV) : gmap string PyVal := _args self.

(** The index a callback was called for, read off its [cb_info] keyword. *)
Definition cb_index (call : Call) : option Z :=
  match keywords call !! "cb_info" with
  | Some (VTuple2 (VInt index) VSelf) => Some index
  | _ => None
  end.

End pyepics_compat.

(** ** [atef/widgets/config/utils.py] *)

Module utils.

(** A pair of [zip_longest(old_uniques, new_uniques, fillvalue=None)]: the
    lists hold strings, so a [None] on one side is always the fill value,
    and the two sides are never both [None]. *)
Inductive Pair : Set :=
  | Both (old new : string)
  | OnlyOld (old : string)
  | OnlyNew (new : string).

Fixpoint zip_longest (l1 l2 : list string) : list Pair :=
  match l1, l2 with
  | [], [] => []
  | old :: l1', [] => OnlyOld old :: zip_longest l1' []
  | [], _ => map OnlyNew l2
  | old :: l1', new :: l2' => Both old new :: zip_longest l1' l2'
  end.

(** The method [edit_items] calls for a pair. *)
Inductive ItemCall : Set :=
  | _add_item (item : string)
  | _remove_item (item : string)
  | _edit_item (old new : string).

Definition dispatch (pair : Pair) : ItemCall :=
  match pair with
  | OnlyNew new => _add_item new          (* [old is None] *)
  | OnlyOld old => _remove_item old       (* [new is None] *)
  | Both old new => _edit_item old new
  end.

(** [[item for item in items if item not in others]] *)
Definition not_in (items others : list string) : list string :=
  List.filter (fun item => negb (bool_decide (item ∈ others))) items.

(** [StringListWithDialog.edit_items] (lines 191-217): the calls it makes
    to [_add_item], [_remove_item] and [_edit_item], in order, when each of
    them returns.  [data] is what [self.data_list.get()] gives, [None] for
    Python's [None], on which [in] raises [TypeError]; the comprehension
    that reads it tests one element of [new_uniques] at a time, and so does
    not read it when there is none. *)
Definition edit_items (allow_duplicates : bool) (data : option (list string))
    (old_items new_items : list string) : string + list ItemCall :=
  let old_uniques := not_in old_items new_items in
  let new_uniques := not_in new_items old_items in
  let new_uniques :=
    if negb allow_duplicates then
      match new_uniques, data with
      | [], _ => inr []
      | _ :: _, None => inl "TypeError"
      | _ :: _, Some current => inr (not_in new_uniques current)
      end
    else inr new_uniques in
  match new_uniques with
  | inl ex => inl ex
  | inr new_uniques => inr (map dispatch (zip_longest old_uniques new_uniques))
  end.

(** The item a call takes out of the list, and the item it puts in. *)
Definition outgoing (call : ItemCall) : option string :=
  match call with
  | _add_item _ => None
  | _remove_item old | _edit_item old _ => Some old
  end.

Definition incoming (call : ItemCall) : option string :=
  match call with
  | _remove_item _ => None
  | _add_item new | _edit_item _ new => Some new
  end.

End utils.

(** ** A small installation to run the definitions on *)

Module sample.

(** Devices are told apart by name, device classes by class name, and a
    configuration's checks are the results they are going to give. *)
Definition Device : Type := string.
Definition DevCls : Type := string.
Definition Checks : Type := list Result.

Definition device_name (d : Device) : string := d.
Definition cls_name (c : DevCls) : string := c.
Definition new_device (c : DevCls) (name : string) : Device := name.

Definition pv_config_to_device_config (pv_config : PVConfiguration Checks)
    : DevCls * DeviceConfiguration Checks :=
  ("PVGroup", mkDeviceConfiguration (pv_description pv_config) (pv_checks pv_config)).

Definition check_device (dev : Device) (checks : Checks) : Severity * list Result :=
  (foldr (fun r acc => check.severity_max (severity r) acc) success checks, checks).

Definition happi : gmap string (SearchResult Device) :=
  {[ "im1l0" := Loadable "im1l0";
     "gone" := Broken "RuntimeError" "no such class" ]}.

Definition isEnabledFor (level : Z) : bool := logging.INFO <=? level.

Definition ok : Result := mkResult success "value is 5".
Definition late : Result := mkResult warning "value is 6, expected 5".
Definition bad : Result := mkResult error "value is 9, expected 5".

Definition pv_a : PVConfiguration Checks := mkPVConfiguration (Some "a") None [ok].
Definition pv_b : PVConfiguration Checks := mkPVConfiguration (Some "b") (Some "beam") [late; bad].
Definition dc_im1l0 : DeviceConfiguration Checks := mkDeviceConfiguration None [ok; late].
Definition dc_missing : DeviceConfiguration Checks := mkDeviceConfiguration None [ok].
Definition dc_gone : DeviceConfiguration Checks := mkDeviceConfiguration None [bad].

Definition config : ConfigurationFile Checks :=
  mkConfigurationFile [pv_a; pv_b]
    [("missing", dc_missing); ("im1l0", dc_im1l0); ("gone", dc_gone)].

Definition check_config_file :=
  check.check_config_file device_name cls_name new_device
    pv_config_to_device_config check_device happi.

Definition main :=
  check.main device_name cls_name new_device
    pv_config_to_device_config check_device happi isEnabledFor.

End sample.

(** * Properties of the checkout run *)

Section CheckoutProperties.

Context {Checks Device DevCls : Type}.
Variable device_name : Device -> string.
Variable cls_name : DevCls -> string.
Variable new_device : DevCls -> string -> Device.
Variable pv_config_to_device_config :
  PVConfiguration Checks -> DevCls * DeviceConfiguration Checks.
Variable check_device : Device -> Checks -> Severity * list Result.
Variable happi : gmap string (SearchResult Device).
Variable isEnabledFor : Z -> bool.

Local Abbreviation Step := (Step Checks Device).
Local Abbreviation Entry := (Entry Checks Device).
Local Abbreviation check_pv_config :=
  (check.check_pv_config device_name cls_name new_device
     pv_config_to_device_config check_device).
Local Abbreviation check_dev_config :=
  (check.check_dev_config device_name check_device).
Local Abbreviation check_config_file :=
  (check.check_config_file device_name cls_name new_device
     pv_config_to_device_config check_device happi).
Local Abbreviation pv_entry :=
  (check.pv_entry new_device pv_config_to_device_config check_device).
Local Abbreviation dev_entry := (check.dev_entry check_device happi).
Local Abbreviation resolves := (check.resolves happi).
Local Abbreviation log_each := (check.log_each isEnabledFor).
Local Abbreviation log_results := (check.log_results device_name isEnabledFor).
Local Abbreviation header := (@check.header Checks Device device_name).
Local Abbreviation consume := (@check.consume Checks Device device_name isEnabledFor).
Local Abbreviation main :=
  (check.main device_name cls_name new_device
     pv_config_to_device_config check_device happi isEnabledFor).
Local Abbreviation emitted := (check.emitted isEnabledFor).

(** ** Yields and events of concatenated runs *)

Lemma yields_app (s1 s2 : list Step) :
  yields (s1 ++ s2) = yields s1 ++ yields s2.
Proof. unfold yields. apply omap_app. Qed.

Lemma yields_bind {X} (body : X -> list Step) (l : list X) :
  yields (l ≫= body) = l ≫= (fun x => yields (body x)).
Proof.
  induction l as [|x l IH]; [reflexivity|].
  cbn [mbind list_bind]. rewrite yields_app. f_equal. exact IH.
Qed.

Lemma yields_check_pv_config F (pv : PVConfiguration Checks) :
  yields (check_pv_config F pv) =
  if check.retained F (pv_name pv) then [pv_entry pv] else [].
Proof.
  unfold check.check_pv_config, check.retained, check.pv_entry.
  destruct (filtered_out F (pv_name pv)); [reflexivity|].
  destruct (pv_config_to_device_config pv) as [dev_cls dev_config].
  destruct (check_device _ _) as [sev res]. reflexivity.
Qed.

Lemma yields_check_dev_config F (item : string * DeviceConfiguration Checks) :
  yields (check_dev_config F happi item) =
  if check.retained F (Some item.1) then option_list (dev_entry item) else [].
Proof.
  destruct item as [n dc].
  unfold check.check_dev_config, check.retained, check.dev_entry. cbn [fst snd].
  destruct (filtered_out F (Some n)); [reflexivity|]. cbn [negb].
  destruct (happi !! n) as [[dev|cls msg]|]; try reflexivity.
  destruct (check_device _ _) as [sev res]. reflexivity.
Qed.

Lemma bind_pv_yields F (l : list (PVConfiguration Checks)) :
  yields (l ≫= check_pv_config F) =
  map pv_entry (List.filter (fun pv => check.retained F (pv_name pv)) l).
Proof.
  induction l as [|pv l IH]; [reflexivity|].
  cbn [mbind list_bind List.filter]. rewrite yields_app, yields_check_pv_config, IH.
  destruct (check.retained F (pv_name pv)); reflexivity.
Qed.

Lemma bind_dev_yields F (l : list (string * DeviceConfiguration Checks)) :
  yields (l ≫= check_dev_config F happi) =
  omap dev_entry (List.filter (fun item => check.retained F (Some item.1)) l).
Proof.
  induction l as [|item l IH]; [reflexivity|].
  cbn [mbind list_bind List.filter]. rewrite yields_app, yields_check_dev_config, IH.
  destruct (check.retained F (Some item.1)); [|reflexivity].
  cbn [omap list_omap]. destruct (dev_entry item); reflexivity.
Qed.

(** The entries of a run: the retained PV configurations in sequence
    order, then the retained device configurations that resolve, in
    mapping order. *)
Lemma check_config_file_yields (config : ConfigurationFile Checks) F :
  yields (check_config_file config F) =
  map pv_entry (List.filter (fun pv => check.retained F (pv_name pv)) (pvs config)) ++
  omap dev_entry
    (List.filter (fun item => check.retained F (Some item.1)) (devices config)).
Proof.
  unfold check.check_config_file. rewrite yields_app, bind_pv_yields. f_equal.
  destruct (devices config) as [|item l] eqn:E; [reflexivity|].
  change (yields (Ev HappiFromConfig :: ?s)) with (yields s).
  apply bind_dev_yields.
Qed.

(** ** Which configuration each entry belongs to *)

Lemma entry_config_pv_entry (pv : PVConfiguration Checks) :
  entry_config (pv_entry pv) = PVCfg pv.
Proof.
  unfold check.pv_entry.
  destruct (pv_config_to_device_config pv) as [dev_cls dev_config].
  destruct (check_device _ _) as [sev res]. reflexivity.
Qed.

Lemma dev_entry_resolves (item : string * DeviceConfiguration Checks) :
  resolves item.1 = true ->
  exists e, dev_entry item = Some e /\ entry_config e = DevCfg item.2.
Proof.
  unfold check.resolves, check.dev_entry.
  destruct (happi !! item.1) as [[dev|cls msg]|]; try discriminate.
  intros _. destruct (check_device _ _) as [sev res]. eexists. split; reflexivity.
Qed.

Lemma dev_entry_unresolved (item : string * DeviceConfiguration Checks) :
  resolves item.1 = false -> dev_entry item = None.
Proof.
  unfold check.resolves, check.dev_entry.
  destruct (happi !! item.1) as [[dev|cls msg]|]; try discriminate; reflexivity.
Qed.

Lemma entry_config_dev_entries (l : list (string * DeviceConfiguration Checks)) :
  map entry_config (omap dev_entry l) =
  map (fun item => DevCfg item.2) (List.filter (fun item => resolves item.1) l).
Proof.
  induction l as [|item l IH]; [reflexivity|].
  cbn [omap list_omap List.filter].
  destruct (resolves item.1) eqn:R.
  - destruct (dev_entry_resolves item R) as (e & -> & He).
    cbn [map]. rewrite He, <- IH. reflexivity.
  - rewrite (dev_entry_unresolved item R). exact IH.
Qed.

Lemma filter_filter_andb {X} (f g : X -> bool) (l : list X) :
  List.filter f (List.filter g l) = List.filter (fun x => g x && f x) l.
Proof.
  induction l as [|x l IH]; [reflexivity|].
  cbn [List.filter]. destruct (g x); cbn [List.filter andb]; rewrite IH; reflexivity.
Qed.

(** ** C2: one entry per retained configuration, in document order *)

(** C2, as amended: a run yields exactly one tuple for each retained PV
    configuration, in sequence order, followed by exactly one tuple for
    each retained device configuration whose device resolves in the
    database, in mapping order; nothing else is yielded. *)
Theorem check_config_file_one_entry_per_resolved (config : ConfigurationFile Checks) F :
  yields (check_config_file config F) =
    map pv_entry (List.filter (fun pv => check.retained F (pv_name pv)) (pvs config)) ++
    omap dev_entry
      (List.filter (fun item => check.retained F (Some item.1)) (devices config))
  /\ map entry_config (yields (check_config_file config F)) =
    map PVCfg (List.filter (fun pv => check.retained F (pv_name pv)) (pvs config)) ++
    map (fun item => DevCfg item.2)
      (List.filter (fun item => check.retained F (Some item.1) && resolves item.1)
         (devices config)).
Proof.
  split; [apply check_config_file_yields|].
  rewrite check_config_file_yields, map_app, entry_config_dev_entries.
  rewrite filter_filter_andb, map_map. f_equal.
  apply map_ext. intros pv. apply entry_config_pv_entry.
Qed.

(** ** C3: a non-empty filter *)

Lemma retained_nonempty (F : list string) (name : option string) :
  F <> [] -> check.retained (Some F) name = name_in name (Some F).
Proof.
  intros HF. unfold check.retained, filtered_out.
  destruct F as [|x F]; [congruence|].
  cbn [seq_truthy andb]. apply negb_involutive.
Qed.

(** C3, as amended: with a non-empty filter list F, a run yields entries
    exactly for the PV configurations whose name is in F and for the device
    configurations whose name is in F and whose device resolves in the
    database; a configuration whose name is not in F gives no entry. *)
Theorem check_config_file_filter_nonempty (config : ConfigurationFile Checks)
    (F : list string) :
  F <> [] ->
  yields (check_config_file config (Some F)) =
    map pv_entry
      (List.filter (fun pv => name_in (pv_name pv) (Some F)) (pvs config)) ++
    omap dev_entry
      (List.filter (fun item => bool_decide (item.1 ∈ F)) (devices config)).
Proof.
  intros HF. rewrite check_config_file_yields. f_equal.
  - f_equal. apply List.filter_ext. intros pv. apply retained_nonempty, HF.
  - f_equal. apply List.filter_ext. intros item.
    rewrite retained_nonempty by exact HF. reflexivity.
Qed.

(** ** C1: a device that does not resolve *)

Lemma log_error_in_dev_config F n (dc : DeviceConfiguration Checks) :
  filtered_out F (Some n) = false ->
  resolves n = false ->
  exists fmt args,
    Ev (Log logging.ERROR fmt (n :: args)) ∈ check_dev_config F happi (n, dc).
Proof.
  intros HF HR. unfold check.check_dev_config. rewrite HF.
  unfold check.resolves in HR.
  destruct (happi !! n) as [[dev|cls msg]|]; try discriminate.
  - do 2 eexists. apply list_elem_of_further, list_elem_of_further, list_elem_of_here.
  - do 2 eexists. apply list_elem_of_further, list_elem_of_here.
Qed.

(** C1, as amended: when a retained device configuration names a device
    that does not resolve (no entry in the database, or an entry whose
    instantiation raises), the run logs an error for that name, yields no
    entry for it, and yields the same entries as if that configuration were
    not in the file: every other device is still checked. *)
Theorem check_config_file_skips_unresolved (config : ConfigurationFile Checks) F
    (before after : list (string * DeviceConfiguration Checks))
    (n : string) (dc : DeviceConfiguration Checks) :
  devices config = before ++ (n, dc) :: after ->
  filtered_out F (Some n) = false ->
  resolves n = false ->
  (exists fmt args,
      Ev (Log logging.ERROR fmt (n :: args)) ∈ check_config_file config F)
  /\ dev_entry (n, dc) = None
  /\ yields (check_config_file config F) =
     yields (check_config_file
               (mkConfigurationFile (pvs config) (before ++ after)) F).
Proof.
  intros Hdev HF HR. split; [|split].
  - destruct (log_error_in_dev_config F n dc HF HR) as (fmt & args & Hin).
    exists fmt, args. unfold check.check_config_file. rewrite Hdev.
    apply elem_of_app. right.
    destruct before; cbn [app]; apply list_elem_of_further;
      apply list_elem_of_bind; exists (n, dc); (split; [exact Hin|]);
      rewrite <- ?app_comm_cons; set_solver.
  - apply (dev_entry_unresolved (n, dc)), HR.
  - rewrite !check_config_file_yields. cbn [pvs devices]. f_equal.
    rewrite Hdev, !List.filter_app, !omap_app. f_equal.
    cbn [List.filter fst]. unfold check.retained. rewrite HF. cbn [negb omap list_omap].
    rewrite (dev_entry_unresolved (n, dc)) by exact HR. reflexivity.
Qed.

(** ** C5: the filter is tested before the database is asked *)

#[local] Instance Ev_inj : Inj (=) (=) (@Ev Checks Device).
Proof. intros e1 e2 H. inversion H. reflexivity. Qed.

Lemma elem_of_check_config_file (s : Step) (config : ConfigurationFile Checks) F :
  s ∈ check_config_file config F ->
  (exists pv, pv ∈ pvs config /\ s ∈ check_pv_config F pv)
  \/ s = Ev HappiFromConfig
  \/ (exists item, item ∈ devices config /\ s ∈ check_dev_config F happi item).
Proof.
  unfold check.check_config_file. intros [Hs|Hs]%elem_of_app.
  - left. apply list_elem_of_bind in Hs as (pv & Hs & Hpv). eauto.
  - right. destruct (devices config) as [|item l]; [inversion Hs|].
    apply elem_of_cons in Hs as [->|Hs]; [left; reflexivity|right].
    apply list_elem_of_bind in Hs as (it & Hs & Hit). eauto.
Qed.

Lemma pv_config_no_happi (e : Event) F (pv : PVConfiguration Checks) :
  Ev e ∈ check_pv_config F pv -> is_happi_event e = false.
Proof.
  unfold check.check_pv_config.
  destruct (filtered_out F (pv_name pv)).
  - intros ->%list_elem_of_singleton%(inj Ev). reflexivity.
  - destruct (pv_config_to_device_config pv) as [dev_cls dev_config].
    destruct (check_device _ _) as [sev res].
    rewrite !elem_of_cons, elem_of_nil.
    intros [H|[H|[H|[H|[H|[]]]]]]; inversion H; reflexivity.
Qed.

Lemma dev_config_happi_name (e : Event) F (item : string * DeviceConfiguration Checks) :
  Ev e ∈ check_dev_config F happi item ->
  e = HappiGetItem item.1 \/ e = HappiGet item.1 ->
  filtered_out F (Some item.1) = false.
Proof.
  destruct item as [n dc]. unfold check.check_dev_config. cbn [fst].
  destruct (filtered_out F (Some n)); [|reflexivity].
  intros ->%list_elem_of_singleton%(inj Ev) [H|H]; discriminate H.
Qed.

Lemma dev_config_happi_own_name (e : Event) F (item : string * DeviceConfiguration Checks) n :
  Ev e ∈ check_dev_config F happi item ->
  e = HappiGetItem n \/ e = HappiGet n ->
  n = item.1.
Proof.
  destruct item as [m dc]. unfold check.check_dev_config. cbn [fst].
  destruct (filtered_out F (Some m)).
  { intros ->%list_elem_of_singleton%(inj Ev) [H|H]; discriminate H. }
  intros Hin He.
  apply elem_of_cons in Hin as [Hin|Hin].
  { apply (inj Ev) in Hin. destruct He as [->| ->]; congruence. }
  destruct (happi !! m) as [[dev|cls msg]|].
  - destruct (check_device _ _) as [sev res].
    rewrite !elem_of_cons, elem_of_nil in Hin.
    destruct Hin as [H|[H|[H|[]]]]; inversion H; subst;
      destruct He as [He|He]; congruence.
  - rewrite !elem_of_cons, elem_of_nil in Hin.
    destruct Hin as [H|[H|[H|[]]]]; inversion H; subst;
      destruct He as [He|He]; congruence.
  - apply list_elem_of_singleton in Hin. inversion Hin; subst.
    destruct He as [He|He]; congruence.
Qed.

(** C5: when the filter test skips a device name (the filter is non-empty
    and the name is not in it), the run neither looks the name up in the
    database ([client[name]]) nor instantiates a device for it
    ([search_result.get()]). *)
Theorem filtered_device_never_resolved (config : ConfigurationFile Checks) F (n : string) :
  filtered_out F (Some n) = true ->
  (Ev (HappiGetItem n) ∉ check_config_file config F)
  /\ (Ev (HappiGet n) ∉ check_config_file config F).
Proof.
  intros HF.
  assert (forall e, e = HappiGetItem n \/ e = HappiGet n ->
                    Ev e ∉ check_config_file config F) as Hno.
  { intros e He Hin.
    apply elem_of_check_config_file in Hin as [(pv & _ & Hin)|[Hin|(item & _ & Hin)]].
    - apply pv_config_no_happi in Hin. destruct He as [-> | ->]; discriminate Hin.
    - apply (inj Ev) in Hin. destruct He as [He|He]; congruence.
    - pose proof (dev_config_happi_own_name e F item n Hin He) as ->.
      pose proof (dev_config_happi_name e F item Hin He). congruence. }
  split; apply Hno; auto.
Qed.

(** ** C8: the empty filter *)

(** C8: an empty sequence as [filtered_devices] filters nothing: the run is,
    step for step, the run with no filter at all. *)
Theorem empty_filter_is_no_filter (config : ConfigurationFile Checks) :
  check_config_file config (Some []) = check_config_file config None
  /\ yields (check_config_file config (Some [])) = yields (check_config_file config None).
Proof. split; reflexivity. Qed.

(** ** C7: PV configurations and the database *)

Lemma dev_config_no_pv_event (e : Event) F (item : string * DeviceConfiguration Checks) :
  Ev e ∈ check_dev_config F happi item -> is_pv_event e = false.
Proof.
  destruct item as [n dc]. unfold check.check_dev_config.
  destruct (filtered_out F (Some n)).
  { intros ->%list_elem_of_singleton%(inj Ev). reflexivity. }
  destruct (happi !! n) as [[dev|cls msg]|].
  - destruct (check_device _ _) as [sev res].
    rewrite !elem_of_cons, elem_of_nil.
    intros [H|[H|[H|[H|[]]]]]; inversion H; reflexivity.
  - rewrite !elem_of_cons, elem_of_nil.
    intros [H|[H|[H|[H|[]]]]]; inversion H; reflexivity.
  - rewrite !elem_of_cons, elem_of_nil.
    intros [H|[H|[]]]; inversion H; reflexivity.
Qed.

Lemma pv_config_converted F (pv : PVConfiguration Checks) :
  check.retained F (pv_name pv) = true ->
  Ev (PvToDevice (pv_name pv)) ∈ check_pv_config F pv
  /\ Yield (pv_entry pv) ∈ check_pv_config F pv.
Proof.
  unfold check.retained, check.check_pv_config, check.pv_entry.
  destruct (filtered_out F (pv_name pv)); [discriminate|]. intros _.
  destruct (pv_config_to_device_config pv) as [dev_cls dev_config].
  destruct (check_device _ _) as [sev res].
  split; [apply list_elem_of_here|]. do 4 apply list_elem_of_further. apply list_elem_of_here.
Qed.

(** C7: a run splits into the PV part followed by the device part.  The PV
    part holds no database call and converts and checks every retained PV
    configuration; no PV configuration is handled in the device part.  The
    database client is constructed exactly when [config.devices] is
    non-empty, and with an empty [config.devices] the run makes no database
    call at all. *)
Theorem pv_configurations_never_reach_happi (config : ConfigurationFile Checks) F :
  exists pv_part dev_part : list Step,
    check_config_file config F = pv_part ++ dev_part
    /\ (forall e, Ev e ∈ pv_part -> is_happi_event e = false)
    /\ (forall pv, pv ∈ pvs config -> check.retained F (pv_name pv) = true ->
          Ev (PvToDevice (pv_name pv)) ∈ pv_part /\ Yield (pv_entry pv) ∈ pv_part)
    /\ (forall e, Ev e ∈ dev_part -> is_pv_event e = false)
    /\ (Ev HappiFromConfig ∈ check_config_file config F <-> devices config <> [])
    /\ (devices config = [] ->
          forall e, Ev e ∈ check_config_file config F -> is_happi_event e = false).
Proof.
  assert (forall e, Ev e ∈ pvs config ≫= check_pv_config F -> is_happi_event e = false)
    as Hpv.
  { intros e (pv & Hin & _)%list_elem_of_bind. exact (pv_config_no_happi e F pv Hin). }
  unfold check.check_config_file. do 2 eexists. split; [reflexivity|].
  split; [exact Hpv|]. split; [|split; [|split]].
  - intros pv Hin Hret. destruct (pv_config_converted F pv Hret) as [H1 H2].
    split; apply list_elem_of_bind; exists pv; auto.
  - intros e Hin. destruct (devices config) as [|item l]; [inversion Hin|].
    apply elem_of_cons in Hin as [Hin|Hin].
    { apply (inj Ev) in Hin. subst e. reflexivity. }
    apply list_elem_of_bind in Hin as (it & Hin & _).
    exact (dev_config_no_pv_event e F it Hin).
  - split.
    + intros [Hin|Hin]%elem_of_app.
      * apply Hpv in Hin. discriminate Hin.
      * destruct (devices config); [inversion Hin|discriminate].
    + intros Hne. apply elem_of_app. right.
      destruct (devices config); [congruence|apply list_elem_of_here].
  - intros -> e [Hin|Hin]%elem_of_app; [exact (Hpv e Hin)|inversion Hin].
Qed.

(** ** C6 and C9: how results are logged *)

Lemma default_level_lookup (s : Severity) :
  check.default_severity_to_log_level !! s = Some (check.log_level_of s).
Proof. destruct s; reflexivity. Qed.

Lemma log_each_default (results : list Result) :
  log_each check.default_severity_to_log_level results =
  (map (fun r => Log (check.log_level_of (severity r)) (reason r) [])
     (List.filter (fun r => isEnabledFor (check.log_level_of (severity r))) results),
   Returns None).
Proof.
  induction results as [|r results IH]; [reflexivity|].
  cbn [check.log_each List.filter]. rewrite default_level_lookup, IH.
  destruct (isEnabledFor _); reflexivity.
Qed.

Lemma emitted_cons (e : Event) (l1 l2 : list Event) :
  emitted l1 = emitted l2 -> emitted (e :: l1) = emitted (e :: l2).
Proof. unfold check.emitted. cbn [List.filter]. intros ->. reflexivity. Qed.

Lemma emitted_results (results : list Result) :
  emitted
    (map (fun r => Log (check.log_level_of (severity r)) (reason r) [])
       (List.filter (fun r => isEnabledFor (check.log_level_of (severity r))) results)) =
  emitted (map (fun r => Log (check.log_level_of (severity r)) (reason r) []) results).
Proof.
  induction results as [|r results IH]; [reflexivity|].
  cbn [List.filter map]. unfold check.emitted in *.
  destruct (isEnabledFor (check.log_level_of (severity r))) eqn:E;
    cbn [List.filter map]; rewrite E, IH; reflexivity.
Qed.

(** C6: the default table sends success to DEBUG, warning to WARNING, and
    error and internal_error to ERROR; with it, [log_results] never raises,
    and after its header line it logs, in order, each result's reason at
    the level the table gives for that result's severity (the
    [isEnabledFor] guard only skips the calls the logger would drop). *)
Theorem log_results_levels :
  check.default_severity_to_log_level !! success = Some logging.DEBUG
  /\ check.default_severity_to_log_level !! warning = Some logging.WARNING
  /\ check.default_severity_to_log_level !! error = Some logging.ERROR
  /\ check.default_severity_to_log_level !! internal_error = Some logging.ERROR
  /\ forall (device : Device) (sev : Severity) (config : AnyConfiguration Checks)
        (results : list Result),
      log_results device sev config results None =
        (header device sev config ::
           map (fun r => Log (check.log_level_of (severity r)) (reason r) [])
             (List.filter (fun r => isEnabledFor (check.log_level_of (severity r)))
                results),
         Returns None)
      /\ emitted (log_results device sev config results None).1 =
         emitted
           (header device sev config ::
              map (fun r => Log (check.log_level_of (severity r)) (reason r) []) results).
Proof.
  repeat (split; [reflexivity|]).
  intros device sev config results.
  unfold check.log_results. cbn [check.level_map_or_default].
  rewrite log_each_default. split; [reflexivity|].
  cbn [fst]. apply emitted_cons, emitted_results.
Qed.

(** C9: [log_results] reports "passed" exactly for the severities success
    and warning (those at most warning in the severity order) and "FAILED"
    exactly for error and internal_error; the word is the third argument of
    the header line it logs first. *)
Theorem passed_iff_at_most_warning (sev : Severity) :
  (check.passed_or_failed sev = "passed" <-> sev = success \/ sev = warning)
  /\ (check.passed_or_failed sev = "passed" <-> severity_le sev warning = true)
  /\ (check.passed_or_failed sev = "FAILED" <-> sev = error \/ sev = internal_error)
  /\ forall (device : Device) (config : AnyConfiguration Checks) (results : list Result)
        (table : option (gmap Severity Z)),
      exists name description calls,
        (log_results device sev config results table).1 =
        Log logging.INFO "Device %s (%s) %s with severity %s"
          [name; description; check.passed_or_failed sev; severity_name sev] :: calls.
Proof.
  split; [|split; [|split]].
  - destruct sev; cbv; split; intros H; try discriminate; auto;
      destruct H as [H|H]; discriminate H.
  - destruct sev; cbv; split; intros H; try discriminate; auto.
  - destruct sev; cbv; split; intros H; try discriminate; auto;
      destruct H as [H|H]; discriminate H.
  - intros device config results table. unfold check.log_results.
    destruct (log_each _ results) as [calls outcome].
    do 3 eexists. reflexivity.
Qed.

(** ** C4: what [main] reports *)










End CheckoutProperties.

(** * Properties of [match_in_list_mapping] *)

Section MatchInListMappingProperties.

Context {A B : Type}.
Variable py_eq : A -> A -> bool.

Local Abbreviation contains := (window.contains py_eq).
Local Abbreviation index := (window.index py_eq).
Local Abbreviation match_in_list_mapping := (@window.match_in_list_mapping A B py_eq).

(** [index] finds the first element that passes the test, whenever
    [contains] says there is one. *)
Lemma index_first_match (v : A) (l : list A) :
  contains v l = true ->
  exists (i : nat) (x : A),
    index v l = Some i /\ l !! i = Some x /\ py_eq x v = true
    /\ forall (j : nat) (y : A), (j < i)%nat -> l !! j = Some y -> py_eq y v = false.
Proof.
  induction l as [|a l IH]; [discriminate|].
  cbn [window.contains window.index]. destruct (py_eq a v) eqn:E.
  - intros _. exists O, a. repeat split; auto. intros j y Hj. lia.
  - cbn [orb]. intros Hc. destruct (IH Hc) as (i & x & Hi & Hx & Hm & Hfirst).
    exists (S i), x. rewrite Hi. repeat split; auto.
    intros [|j] y Hj Hy.
    + cbn in Hy. congruence.
    + apply (Hfirst j y); [lia|exact Hy].
Qed.

Lemma index_lt_length (v : A) (l : list A) (i : nat) :
  index v l = Some i -> (i < length l)%nat.
Proof.
  revert i. induction l as [|a l IH]; intros i; [discriminate|].
  cbn [window.index length]. destruct (py_eq a v).
  - intros [= <-]. lia.
  - destruct (index v l) as [k|]; [|discriminate].
    intros [= <-]. specialize (IH k eq_refl). lia.
Qed.

(** C10: when [list2] is at least as long as [list1],
    [match_in_list_mapping] returns [None] if [value in list1] is false,
    and otherwise the element of [list2] at the position of the first
    element of [list1] equal to the value; it raises neither
    [ValueError] nor [IndexError]. *)
Theorem match_in_list_mapping_in_bounds (v : A) (l1 : list A) (l2 : list B) :
  (length l1 <= length l2)%nat ->
  (contains v l1 = false -> match_in_list_mapping v l1 l2 = window.RNone)
  /\ (contains v l1 = true ->
      exists (i : nat) (x : A) (b : B),
        index v l1 = Some i /\ l1 !! i = Some x /\ py_eq x v = true
        /\ (forall (j : nat) (y : A),
              (j < i)%nat -> l1 !! j = Some y -> py_eq y v = false)
        /\ l2 !! i = Some b
        /\ match_in_list_mapping v l1 l2 = window.RValue b)
  /\ match_in_list_mapping v l1 l2 <> window.RValueError
  /\ match_in_list_mapping v l1 l2 <> window.RIndexError.
Proof.
  intros Hlen.
  assert (contains v l1 = true ->
          exists (i : nat) (x : A) (b : B),
            index v l1 = Some i /\ l1 !! i = Some x /\ py_eq x v = true
            /\ (forall (j : nat) (y : A),
                  (j < i)%nat -> l1 !! j = Some y -> py_eq y v = false)
            /\ l2 !! i = Some b
            /\ match_in_list_mapping v l1 l2 = window.RValue b) as Hfound.
  { intros Hc. destruct (index_first_match v l1 Hc) as (i & x & Hi & Hx & Hm & Hfirst).
    pose proof (index_lt_length v l1 i Hi) as Hlt.
    destruct (lookup_lt_is_Some_2 l2 i) as [b Hb]; [lia|].
    exists i, x, b. repeat split; auto.
    unfold window.match_in_list_mapping. rewrite Hc, Hi, Hb. reflexivity. }
  split; [|split; [exact Hfound|]].
  - intros Hc. unfold window.match_in_list_mapping. rewrite Hc. reflexivity.
  - destruct (contains v l1) eqn:Hc.
    + destruct (Hfound eq_refl) as (i & x & b & _ & _ & _ & _ & _ & ->).
      split; discriminate.
    + unfold window.match_in_list_mapping. rewrite Hc. split; discriminate.
Qed.

End MatchInListMappingProperties.

(** * The properties at work on the sample installation *)

(** C1 on the sample: "missing" has no database entry; the run logs the
    error and yields what it would yield without that configuration. *)
Lemma check_config_file_skips_unresolved_sample :
  devices sample.config =
    [] ++ ("missing", sample.dc_missing) ::
          [("im1l0", sample.dc_im1l0); ("gone", sample.dc_gone)]
  /\ filtered_out None (Some "missing") = false
  /\ check.resolves sample.happi "missing" = false
  /\ (exists fmt args,
        Ev (Log logging.ERROR fmt ("missing" :: args))
          ∈ sample.check_config_file sample.config None)
  /\ check.dev_entry sample.check_device sample.happi ("missing", sample.dc_missing) = None
  /\ yields (sample.check_config_file sample.config None) =
     yields (sample.check_config_file
               (mkConfigurationFile (pvs sample.config)
                  ([] ++ [("im1l0", sample.dc_im1l0); ("gone", sample.dc_gone)]))
               None).
Proof.
  split; [reflexivity|]. split; [reflexivity|]. split; [reflexivity|].
  apply (check_config_file_skips_unresolved
           sample.device_name sample.cls_name sample.new_device
           sample.pv_config_to_device_config sample.check_device sample.happi
           sample.config None [] [("im1l0", sample.dc_im1l0); ("gone", sample.dc_gone)]
           "missing" sample.dc_missing); reflexivity.
Defined.

(** C1, as stated, fails on the sample: "missing" has no database entry
    and the entry of "gone" cannot be instantiated; both are in the file,
    and the run yields no entry for either configuration, with severity
    error or any other. *)
Lemma unresolved_device_has_no_entry :
  ("missing", sample.dc_missing) ∈ devices sample.config
  /\ sample.happi !! "missing" = None
  /\ ("gone", sample.dc_gone) ∈ devices sample.config
  /\ sample.happi !! "gone" = Some (Broken "RuntimeError" "no such class")
  /\ ~ exists e : Entry sample.Checks sample.Device,
        e ∈ yields (sample.check_config_file sample.config None)
        /\ (entry_config e = DevCfg sample.dc_missing
            \/ entry_config e = DevCfg sample.dc_gone).
Proof.
  split; [apply list_elem_of_here|]. split; [reflexivity|].
  split; [do 2 apply list_elem_of_further; apply list_elem_of_here|].
  split; [reflexivity|].
  intros (e & Hin & Hcfg).
  assert (yields (sample.check_config_file sample.config None) =
          [("a", PVCfg sample.pv_a, success, [sample.ok]);
           ("b", PVCfg sample.pv_b, error, [sample.late; sample.bad]);
           ("im1l0", DevCfg sample.dc_im1l0, warning, [sample.ok; sample.late])])
    as E by reflexivity.
  rewrite E in Hin. rewrite !elem_of_cons, elem_of_nil in Hin.
  destruct Hin as [-> | [-> | [-> | []]]]; destruct Hcfg as [Hcfg|Hcfg];
    discriminate Hcfg.
Qed.

(** C2, as stated, fails on the sample: five configurations are retained
    (no filter), three tuples are yielded. *)
Lemma fewer_entries_than_retained :
  length (yields (sample.check_config_file sample.config None)) = 3%nat
  /\ (length (List.filter (fun pv => check.retained None (pv_name pv)) (pvs sample.config)) +
      length (List.filter (fun item => check.retained None (Some item.1))
                (devices sample.config)))%nat = 5%nat
  /\ map entry_config (yields (sample.check_config_file sample.config None)) <>
     map PVCfg (List.filter (fun pv => check.retained None (pv_name pv)) (pvs sample.config)) ++
     map (fun item => DevCfg item.2)
       (List.filter (fun item => check.retained None (Some item.1)) (devices sample.config)).
Proof.
  split; [reflexivity|]. split; [reflexivity|].
  intros H. apply (f_equal length) in H. vm_compute in H. discriminate H.
Qed.

(** C3 on the sample, with the filter ["im1l0"; "b"]. *)
Lemma check_config_file_filter_nonempty_sample :
  ["im1l0"; "b"] <> []
  /\ yields (sample.check_config_file sample.config (Some ["im1l0"; "b"])) =
     map (check.pv_entry sample.new_device sample.pv_config_to_device_config
            sample.check_device)
       (List.filter (fun pv => name_in (pv_name pv) (Some ["im1l0"; "b"]))
          (pvs sample.config)) ++
     omap (check.dev_entry sample.check_device sample.happi)
       (List.filter (fun item => bool_decide (item.1 ∈ ["im1l0"; "b"]))
          (devices sample.config)).
Proof.
  split; [discriminate|].
  apply (check_config_file_filter_nonempty
           sample.device_name sample.cls_name sample.new_device
           sample.pv_config_to_device_config sample.check_device sample.happi
           sample.config ["im1l0"; "b"]).
  discriminate.
Defined.

(** C3, as stated, fails on the sample: with the filter ["missing"], the
    configuration named "missing" is in the filter and yet the run yields
    nothing. *)
Lemma filtered_in_but_no_entry :
  "missing" ∈ ["missing"]
  /\ ("missing", sample.dc_missing) ∈ devices sample.config
  /\ yields (sample.check_config_file sample.config (Some ["missing"])) = []
  /\ ~ (forall n dc, (n, dc) ∈ devices sample.config -> n ∈ ["missing"] ->
         exists e : Entry sample.Checks sample.Device,
           e ∈ yields (sample.check_config_file sample.config (Some ["missing"]))
           /\ entry_config e = DevCfg dc).
Proof.
  split; [apply list_elem_of_here|]. split; [apply list_elem_of_here|].
  split; [reflexivity|].
  intros H.
  destruct (H "missing" sample.dc_missing) as (e & Hin & _);
    [apply list_elem_of_here|apply list_elem_of_here|].
  change (e ∈ []) in Hin. inversion Hin.
Qed.


(** C5 on the sample: with the filter ["im1l0"], "gone" is never asked
    of the database. *)
Lemma filtered_device_never_resolved_sample :
  filtered_out (Some ["im1l0"]) (Some "gone") = true
  /\ (Ev (HappiGetItem "gone") ∉ sample.check_config_file sample.config (Some ["im1l0"]))
  /\ (Ev (HappiGet "gone") ∉ sample.check_config_file sample.config (Some ["im1l0"])).
Proof.
  split; [reflexivity|].
  apply (filtered_device_never_resolved
           sample.device_name sample.cls_name sample.new_device
           sample.pv_config_to_device_config sample.check_device sample.happi
           sample.config (Some ["im1l0"]) "gone").
  reflexivity.
Defined.

(** C10 on a configuration list with a repeated element: "cmp" is found
    at position 1 first, and the prepared item at position 1 is returned. *)
Lemma match_in_list_mapping_in_bounds_sample :
  let l1 := ["grp"; "cmp"; "cmp"] in
  let l2 := [10; 20; 30] in
  (length l1 <= length l2)%nat
  /\ window.match_in_list_mapping String.eqb "cmp" l1 l2 = window.RValue 20
  /\ (window.contains String.eqb "cmp" l1 = false ->
      window.match_in_list_mapping String.eqb "cmp" l1 l2 = window.RNone)
  /\ (window.contains String.eqb "cmp" l1 = true ->
      exists (i : nat) (x : string) (b : Z),
        window.index String.eqb "cmp" l1 = Some i /\ l1 !! i = Some x
        /\ String.eqb x "cmp" = true
        /\ (forall (j : nat) (y : string),
              (j < i)%nat -> l1 !! j = Some y -> String.eqb y "cmp" = false)
        /\ l2 !! i = Some b
        /\ window.match_in_list_mapping String.eqb "cmp" l1 l2 = window.RValue b)
  /\ window.match_in_list_mapping String.eqb "cmp" l1 l2 <> window.RValueError
  /\ window.match_in_list_mapping String.eqb "cmp" l1 l2 <> window.RIndexError.
Proof.
  intros l1 l2. split; [cbn; lia|]. split; [reflexivity|].
  apply (match_in_list_mapping_in_bounds String.eqb "cmp" l1 l2).
  cbn; lia.
Defined.

(** * More on the checkout run: what is called, and when *)

Section CheckoutTrace.

Context {Checks Device DevCls : Type}.
Variable device_name : Device -> string.
Variable cls_name : DevCls -> string.
Variable new_device : DevCls -> string -> Device.
Variable pv_config_to_device_config :
  PVConfiguration Checks -> DevCls * DeviceConfiguration Checks.
Variable check_device : Device -> Checks -> Severity * list Result.
Variable happi : gmap string (SearchResult Device).
Variable isEnabledFor : Z -> bool.

Local Abbreviation Step := (Step Checks Device).
Local Abbreviation Entry := (Entry Checks Device).
Local Abbreviation check_pv_config :=
  (check.check_pv_config device_name cls_name new_device
     pv_config_to_device_config check_device).
Local Abbreviation check_dev_config :=
  (check.check_dev_config device_name check_device).
Local Abbreviation check_config_file :=
  (check.check_config_file device_name cls_name new_device
     pv_config_to_device_config check_device happi).
Local Abbreviation pv_entry :=
  (check.pv_entry new_device pv_config_to_device_config check_device).
Local Abbreviation dev_entry := (check.dev_entry check_device happi).
Local Abbreviation resolves := (check.resolves happi).
Local Abbreviation log_each := (check.log_each isEnabledFor).
Local Abbreviation log_results := (check.log_results device_name isEnabledFor).
Local Abbreviation header := (@check.header Checks Device device_name).
Local Abbreviation consume := (@check.consume Checks Device device_name isEnabledFor).
Local Abbreviation main :=
  (check.main device_name cls_name new_device
     pv_config_to_device_config check_device happi isEnabledFor).

Lemma events_app (s1 s2 : list Step) :
  events (s1 ++ s2) = events s1 ++ events s2.
Proof. unfold events. apply omap_app. Qed.

(** The calls of a loop are the calls of its rounds, one after the other. *)
Lemma omap_events_bind {X Y} (pick : Event -> option Y) (body : X -> list Step)
    (l : list X) :
  omap pick (events (l ≫= body)) = l ≫= (fun x => omap pick (events (body x))).
Proof.
  induction l as [|x l IH]; [reflexivity|].
  cbn [mbind list_bind]. rewrite events_app, omap_app. f_equal. exact IH.
Qed.

Lemma omap_events_pv_config {Y} (pick : Event -> option Y) F
    (l : list (PVConfiguration Checks)) :
  (forall level fmt args, pick (Log level fmt args) = None) ->
  (forall name, pick (PvToDevice name) = None) ->
  (forall c name, pick (NewDevice c name) = None) ->
  (forall name, pick (CheckDevice name) = None) ->
  omap pick (events (l ≫= check_pv_config F)) = [].
Proof.
  intros Hlog Hpv Hnew Hchk. rewrite omap_events_bind.
  induction l as [|pv l IH]; [reflexivity|].
  cbn [mbind list_bind]. rewrite IH, app_nil_r.
  unfold check.check_pv_config. destruct (filtered_out F (pv_name pv)).
  - cbn. rewrite Hlog. reflexivity.
  - destruct (pv_config_to_device_config pv) as [dev_cls dev_config].
    destruct (check_device _ _) as [sev res].
    cbn. rewrite Hpv, Hlog, Hnew, Hchk. reflexivity.
Qed.

(** X1: the names looked up in the database ([client[name]]) are exactly
    the names of the retained device configurations, each once, in mapping
    order; [get()] is called exactly for those of them that have a database
    entry, in the same order. *)
Theorem database_calls_per_retained_device (config : ConfigurationFile Checks) F :
  check.getitem_names (events (check_config_file config F)) =
    map fst (List.filter (fun item => check.retained F (Some item.1)) (devices config))
  /\ check.get_names (events (check_config_file config F)) =
    map fst
      (List.filter
         (fun item => check.retained F (Some item.1) && check.in_database happi item.1)
         (devices config)).
Proof.
  unfold check.check_config_file, check.getitem_names, check.get_names.
  rewrite events_app, !omap_app.
  rewrite !omap_events_pv_config by reflexivity. cbn [app].
  destruct (devices config) as [|item0 l0] eqn:E; [split; reflexivity|].
  rewrite <- E. clear E item0 l0.
  change (events (Ev HappiFromConfig :: ?s)) with (HappiFromConfig :: events s).
  cbn [omap list_omap]. rewrite !omap_events_bind.
  induction (devices config) as [|[n dc] l [IH1 IH2]]; [split; reflexivity|].
  cbn [mbind list_bind List.filter fst]. rewrite IH1, IH2.
  unfold check.check_dev_config, check.retained, check.in_database.
  destruct (filtered_out F (Some n)); cbn [negb andb]; [split; reflexivity|].
  destruct (happi !! n) as [[dev|c msg]|] eqn:Hn.
  - destruct (check_device _ _) as [sev res].
    rewrite bool_decide_eq_true_2 by eauto. split; reflexivity.
  - rewrite bool_decide_eq_true_2 by eauto. split; reflexivity.
  - rewrite bool_decide_eq_false_2 by (intros [? ?]; discriminate). split; reflexivity.
Qed.

Lemma yields_app' (s1 s2 : list Step) :
  yields (s1 ++ s2) = yields s1 ++ yields s2.
Proof. unfold yields. apply omap_app. Qed.

(** In one round of either loop, [check_device] is called once for each
    tuple yielded, on that tuple's device. *)
Lemma checked_names_pv_config F (pv : PVConfiguration Checks) :
  check.checked_names (events (check_pv_config F pv)) =
  map (fun e : Entry => device_name e.1.1.1) (yields (check_pv_config F pv)).
Proof.
  unfold check.check_pv_config. destruct (filtered_out F (pv_name pv)); [reflexivity|].
  destruct (pv_config_to_device_config pv) as [dev_cls dev_config].
  destruct (check_device _ _) as [sev res]. reflexivity.
Qed.

Lemma checked_names_dev_config F (item : string * DeviceConfiguration Checks) :
  check.checked_names (events (check_dev_config F happi item)) =
  map (fun e : Entry => device_name e.1.1.1) (yields (check_dev_config F happi item)).
Proof.
  destruct item as [n dc]. unfold check.check_dev_config.
  destruct (filtered_out F (Some n)); [reflexivity|].
  destruct (happi !! n) as [[dev|c msg]|]; try reflexivity.
  destruct (check_device _ _) as [sev res]. reflexivity.
Qed.

Lemma checked_names_bind {X} (body : X -> list Step) (l : list X) :
  (forall x, check.checked_names (events (body x)) =
             map (fun e : Entry => device_name e.1.1.1) (yields (body x))) ->
  check.checked_names (events (l ≫= body)) =
  map (fun e : Entry => device_name e.1.1.1) (yields (l ≫= body)).
Proof.
  intros Hbody. induction l as [|x l IH]; [reflexivity|].
  cbn [mbind list_bind]. unfold check.checked_names in *.
  rewrite events_app, omap_app, yields_app', map_app, Hbody, IH. reflexivity.
Qed.

(** X2: [check_device] is called exactly once for every tuple the run
    yields, on that tuple's device and in the order of the tuples; it is
    never called for a configuration that is skipped. *)
Theorem check_device_once_per_entry (config : ConfigurationFile Checks) F :
  check.checked_names (events (check_config_file config F)) =
  map (fun e : Entry => device_name e.1.1.1) (yields (check_config_file config F)).
Proof.
  unfold check.check_config_file.
  pose proof (checked_names_bind (check_pv_config F) (pvs config)
                (checked_names_pv_config F)) as Hpv.
  pose proof (checked_names_bind (check_dev_config F happi) (devices config)
                (checked_names_dev_config F)) as Hdev.
  unfold check.checked_names in *.
  rewrite events_app, omap_app, yields_app', map_app, Hpv. f_equal.
  destruct (devices config); [reflexivity|]. exact Hdev.
Qed.

Lemma filter_sublist_of {X} (f : X -> bool) (l : list X) :
  List.filter f l `sublist_of` l.
Proof.
  induction l as [|x l IH]; [constructor|].
  cbn [List.filter]. destruct (f x); [apply sublist_skip|apply sublist_cons]; exact IH.
Qed.

Lemma omap_sublist_of {X Y} (f : X -> option Y) (l k : list X) :
  l `sublist_of` k -> omap f l `sublist_of` omap f k.
Proof.
  induction 1 as [|x l k _ IH|x l k _ IH]; [constructor| |];
    cbn [omap list_omap]; destruct (f x); try exact IH.
  - apply sublist_skip, IH.
  - apply sublist_cons, IH.
Qed.

Lemma retained_no_filter (name : option string) : check.retained None name = true.
Proof. reflexivity. Qed.

Lemma filter_all {X} (f : X -> bool) (l : list X) :
  (forall x, f x = true) -> List.filter f l = l.
Proof.
  intros Hf. induction l as [|x l IH]; [reflexivity|].
  cbn [List.filter]. rewrite Hf, IH. reflexivity.
Qed.

(** X3: a filter only removes entries: the entries of a filtered run are a
    subsequence of the entries of the unfiltered run of the same file; none
    is changed, added or moved. *)
Theorem filtered_entries_sublist (config : ConfigurationFile Checks) F :
  yields (check_config_file config F) `sublist_of` yields (check_config_file config None).
Proof.
  rewrite !(check_config_file_yields device_name cls_name new_device
              pv_config_to_device_config check_device happi).
  rewrite (filter_all (fun pv => check.retained None (pv_name pv))) by reflexivity.
  rewrite (filter_all (fun item : string * DeviceConfiguration Checks =>
                         check.retained None (Some item.1))) by reflexivity.
  apply sublist_app.
  - apply (fmap_sublist pv_entry), filter_sublist_of.
  - apply omap_sublist_of, filter_sublist_of.
Qed.

Lemma filtered_out_same_members (F F' : list string) (name : option string) :
  (forall n, n ∈ F <-> n ∈ F') ->
  filtered_out (Some F) name = filtered_out (Some F') name.
Proof.
  intros Hmem. unfold filtered_out. f_equal.
  - destruct F as [|x F], F' as [|y F']; try reflexivity.
    + exfalso. apply (elem_of_nil y), Hmem, list_elem_of_here.
    + exfalso. apply (elem_of_nil x), Hmem, list_elem_of_here.
  - f_equal. destruct name as [n|]; [|reflexivity].
    cbn [name_in]. apply bool_decide_ext, Hmem.
Qed.

(** X4: a filter acts as a set of names: two filter lists with the same
    members, in whatever order and with whatever repetitions, give the same
    run, step for step. *)
Theorem filter_order_irrelevant (config : ConfigurationFile Checks) (F F' : list string) :
  (forall n, n ∈ F <-> n ∈ F') ->
  check_config_file config (Some F) = check_config_file config (Some F').
Proof.
  intros Hmem. unfold check.check_config_file. f_equal.
  - apply list_bind_ext; [|reflexivity]. intros pv.
    unfold check.check_pv_config.
    rewrite (filtered_out_same_members F F' _ Hmem). reflexivity.
  - destruct (devices config); [reflexivity|]. f_equal.
    apply list_bind_ext; [|reflexivity]. intros [n dc].
    unfold check.check_dev_config.
    rewrite (filtered_out_same_members F F' _ Hmem). reflexivity.
Qed.

(** X5: a PV configuration without a name ([None]) is checked under the
    device name "PVConfig" when no filter is in force, and is skipped by
    every non-empty filter, also by one that lists "PVConfig": the filter
    tests the configuration's name, not the device's. *)
Theorem unnamed_pv_config (F : option (list string)) (pv : PVConfiguration Checks) :
  pv_name pv = None ->
  (seq_truthy F = true -> yields (check_pv_config F pv) = [])
  /\ (seq_truthy F = false ->
      yields (check_pv_config F pv) = [pv_entry pv]
      /\ exists c, Ev (NewDevice c "PVConfig") ∈ check_pv_config F pv).
Proof.
  intros Hname. unfold check.check_pv_config, check.pv_entry, filtered_out.
  rewrite Hname. cbn [name_in negb str_or]. split; intros ->; cbn [andb]; [reflexivity|].
  destruct (pv_config_to_device_config pv) as [dev_cls dev_config].
  destruct (check_device _ _) as [sev res]. split; [reflexivity|].
  eexists. do 2 apply list_elem_of_further. apply list_elem_of_here.
Qed.

(** ** [log_results] with a table of the caller's *)

Lemma log_each_complete (table : gmap Severity Z) (results : list Result) :
  (forall r, r ∈ results -> is_Some (table !! severity r)) ->
  log_each table results =
  (omap (check.result_line isEnabledFor table) results, Returns None).
Proof.
  induction results as [|r results IH]; intros Hall; [reflexivity|].
  destruct (Hall r) as [lvl Hlvl]; [apply list_elem_of_here|].
  cbn [check.log_each omap list_omap]. unfold check.result_line at 1.
  rewrite Hlvl, IH by (intros x Hx; apply Hall, list_elem_of_further, Hx).
  destruct (isEnabledFor lvl); reflexivity.
Qed.

Lemma log_each_missing (table : gmap Severity Z) (before after : list Result)
    (r : Result) :
  (forall x, x ∈ before -> is_Some (table !! severity x)) ->
  table !! severity r = None ->
  log_each table (before ++ r :: after) =
  (omap (check.result_line isEnabledFor table) before, Raises "KeyError").
Proof.
  intros Hall Hr. induction before as [|x before IH].
  - cbn [app check.log_each]. rewrite Hr. reflexivity.
  - destruct (Hall x) as [lvl Hlvl]; [apply list_elem_of_here|].
    cbn [app check.log_each omap list_omap]. unfold check.result_line at 1.
    rewrite Hlvl, IH by (intros y Hy; apply Hall, list_elem_of_further, Hy).
    destruct (isEnabledFor lvl); reflexivity.
Qed.

(** X6: a non-empty table given as [severity_to_log_level] is used as
    given: when it has a level for the severity of every result,
    [log_results] returns normally after the header line and one line per
    result, at the table's level, for the levels the logger is enabled for.
    An empty dict is falsy, so with it the default table is used, exactly
    as with [None]. *)
Theorem log_results_custom_table (device : Device) (sev : Severity)
    (config : AnyConfiguration Checks) (results : list Result)
    (table : gmap Severity Z) :
  table <> ∅ ->
  (forall r, r ∈ results -> is_Some (table !! severity r)) ->
  log_results device sev config results (Some table) =
    (header device sev config ::
       omap (check.result_line isEnabledFor table) results,
     Returns None)
  /\ log_results device sev config results (Some ∅) =
     log_results device sev config results None.
Proof.
  intros Hne Hall. split; [|reflexivity].
  unfold check.log_results, check.level_map_or_default.
  destruct (decide (table = ∅)) as [->|_]; [congruence|].
  rewrite log_each_complete by exact Hall. reflexivity.
Qed.

(** X7: with a non-empty table of the caller's that lacks the severity of
    some result, [log_results] raises [KeyError] at the first such result:
    the header and the lines of the results before it have been logged,
    nothing of the results after it is. *)
Theorem log_results_missing_severity (device : Device) (sev : Severity)
    (config : AnyConfiguration Checks) (table : gmap Severity Z)
    (before after : list Result) (r : Result) :
  table <> ∅ ->
  (forall x, x ∈ before -> is_Some (table !! severity x)) ->
  table !! severity r = None ->
  log_results device sev config (before ++ r :: after) (Some table) =
  (header device sev config :: omap (check.result_line isEnabledFor table) before,
   Raises "KeyError").
Proof.
  intros Hne Hall Hr. unfold check.log_results, check.level_map_or_default.
  destruct (decide (table = ∅)) as [->|_]; [congruence|].
  rewrite log_each_missing by assumption. reflexivity.
Qed.

(** ** The [finally] clause of [main] *)





(** ** Error lines *)

(** X9: the run logs at ERROR level only for a retained device
    configuration whose device does not resolve: every ERROR line of
    [check_config_file] has, as its first argument, the name of a device
    configuration of the file that passes the filter and has no loadable
    database entry. *)
Theorem error_lines_name_unresolved (config : ConfigurationFile Checks) F
    (fmt : string) (args : list string) :
  Ev (Log logging.ERROR fmt args) ∈ check_config_file config F ->
  exists (n : string) (dc : DeviceConfiguration Checks) (rest : list string),
    args = n :: rest
    /\ (n, dc) ∈ devices config
    /\ check.retained F (Some n) = true
    /\ resolves n = false.
Proof.
  unfold check.check_config_file. intros [Hin|Hin]%elem_of_app.
  - apply list_elem_of_bind in Hin as (pv & Hin & _).
    unfold check.check_pv_config in Hin.
    destruct (filtered_out F (pv_name pv)).
    + apply list_elem_of_singleton in Hin. discriminate Hin.
    + destruct (pv_config_to_device_config pv) as [dev_cls dev_config].
      destruct (check_device _ _) as [s0 res].
      rewrite !elem_of_cons, elem_of_nil in Hin.
      destruct Hin as [H|[H|[H|[H|[H|[]]]]]]; discriminate H.
  - destruct (devices config) as [|item l] eqn:E; [inversion Hin|].
    rewrite <- E in *. clear E.
    apply elem_of_cons in Hin as [Hin|Hin]; [discriminate Hin|].
    apply list_elem_of_bind in Hin as ([n dc] & Hin & Hitem).
    unfold check.check_dev_config in Hin.
    destruct (filtered_out F (Some n)) eqn:HF.
    { apply list_elem_of_singleton in Hin. discriminate Hin. }
    destruct (happi !! n) as [[dev|c msg]|] eqn:Hn.
    + destruct (check_device _ _) as [s0 res].
      rewrite !elem_of_cons, elem_of_nil in Hin.
      destruct Hin as [H|[H|[H|[H|[]]]]]; discriminate H.
    + rewrite !elem_of_cons, elem_of_nil in Hin.
      destruct Hin as [H|[H|[H|[H|[]]]]]; try discriminate H.
      inversion H; subst. exists n, dc. eexists.
      unfold check.retained, check.resolves. rewrite HF, Hn. auto.
    + rewrite !elem_of_cons, elem_of_nil in Hin.
      destruct Hin as [H|[H|[]]]; try discriminate H.
      inversion H; subst. exists n, dc. eexists.
      unfold check.retained, check.resolves. rewrite HF, Hn. auto.
Qed.

End CheckoutTrace.

(** * Properties of the configuration window *)

Section TabName.

Lemma append_cons (a : ascii) (s t : string) :
  String a s +:+ t = String a (s +:+ t).
Proof. reflexivity. Qed.

Lemma append_empty (t : string) : "" +:+ t = t.
Proof. reflexivity. Qed.

Lemma rfind_nonneg (c : ascii) (s : string) :
  (0 <=? window.rfind c s) = window.contains_char c s.
Proof.
  induction s as [|a s IH]; [reflexivity|].
  cbn [window.rfind window.contains_char].
  destruct (0 <=? window.rfind c s) eqn:E.
  - rewrite <- IH, orb_true_r. apply Z.leb_le. apply Z.leb_le in E. lia.
  - rewrite <- IH, orb_false_r. destruct (bool_decide (a = c)); reflexivity.
Qed.

(** [basename] one character at a time. *)
Lemma basename_cons (a : ascii) (s : string) :
  window.basename (String a s) =
  if window.contains_char "/" s then window.basename s
  else if bool_decide (a = "/"%char) then s else String a s.
Proof.
  unfold window.basename. cbn [window.rfind].
  rewrite rfind_nonneg. destruct (window.contains_char "/" s) eqn:E.
  - rewrite <- rfind_nonneg in E. apply Z.leb_le in E.
    replace (Z.to_nat (window.rfind "/" s + 1 + 1))
      with (S (Z.to_nat (window.rfind "/" s + 1))) by lia.
    reflexivity.
  - destruct (bool_decide (a = "/"%char)); reflexivity.
Qed.

Lemma basename_without_sep (s : string) :
  window.contains_char "/" s = false -> window.basename s = s.
Proof.
  destruct s as [|a s]; [reflexivity|].
  rewrite basename_cons. cbn [window.contains_char].
  intros [Ha Hs]%orb_false_elim. rewrite Hs, Ha. reflexivity.
Qed.

Lemma contains_char_app (c : ascii) (s t : string) :
  window.contains_char c (s +:+ t) =
  window.contains_char c s || window.contains_char c t.
Proof.
  induction s as [|a s IH]; [reflexivity|].
  rewrite append_cons. cbn [window.contains_char]. rewrite IH. apply orb_assoc.
Qed.

Lemma basename_app (s t : string) :
  window.contains_char "/" t = false ->
  window.basename (s +:+ t) = window.basename s +:+ t.
Proof.
  intros Ht. induction s as [|a s IH].
  - rewrite append_empty, basename_without_sep by exact Ht. reflexivity.
  - rewrite append_cons, !basename_cons, contains_char_app, Ht, orb_false_r.
    destruct (window.contains_char "/" s); [exact IH|].
    destruct (bool_decide (a = "/"%char)); reflexivity.
Qed.

Lemma basename_after_sep (d n : string) :
  window.contains_char "/" n = false ->
  window.basename (d +:+ "/" +:+ n) = n.
Proof.
  intros Hn. induction d as [|a d IH].
  - rewrite append_empty, append_cons, append_empty, basename_cons, Hn. reflexivity.
  - rewrite append_cons, basename_cons, contains_char_app.
    rewrite append_cons, append_empty. cbn [window.contains_char].
    rewrite bool_decide_eq_true_2 by reflexivity.
    cbn [orb]. rewrite orb_true_r. exact IH.
Qed.

Lemma endswith_refl (s : string) : window.endswith s s = true.
Proof. destruct s; cbn [window.endswith]; rewrite bool_decide_eq_true_2; reflexivity. Qed.

Lemma endswith_app (s suffix : string) :
  window.endswith (s +:+ suffix) suffix = true.
Proof.
  induction s as [|a s IH]; [apply endswith_refl|].
  rewrite append_cons. cbn [window.endswith]. rewrite IH.
  destruct (bool_decide _); reflexivity.
Qed.

Lemma basename_no_separator (s : string) :
  window.contains_char "/" (window.basename s) = false.
Proof.
  induction s as [|a s IH]; [reflexivity|].
  rewrite basename_cons. destruct (window.contains_char "/" s) eqn:Hs; [exact IH|].
  destruct (bool_decide (a = "/"%char)) eqn:Ha; [exact Hs|].
  cbn [window.contains_char]. rewrite Ha, Hs. reflexivity.
Qed.

(** X10: a tab name never contains a path separator: whatever the file
    name, [get_tab_name] gives a string without ['/']. *)
Theorem get_tab_name_no_separator (filename : option string) :
  window.contains_char "/" (window.get_tab_name filename) = false.
Proof. unfold window.get_tab_name. apply basename_no_separator. Qed.

(** X11: a file name without any ['.'] gets the extension: the tab name is
    the base name followed by ".json". *)
Theorem get_tab_name_adds_extension (filename : string) :
  window.contains_char "." filename = false ->
  window.get_tab_name (Some filename) = window.basename filename +:+ ".json"
  /\ window.endswith (window.get_tab_name (Some filename)) ".json" = true.
Proof.
  intros Hdot. unfold window.get_tab_name. rewrite Hdot. cbn [negb].
  assert (window.basename (filename +:+ "." +:+ window.user_filename_ext) =
          window.basename filename +:+ ".json") as ->.
  { apply (basename_app filename ".json"). reflexivity. }
  split; [reflexivity|]. apply endswith_app.
Qed.

(** X12: the test for ['.'] looks at the whole path, not at the base name:
    for a file without extension in a directory whose path has a ['.'],
    the tab name is the bare base name, without ".json". *)
Theorem get_tab_name_dotted_directory (directory name : string) :
  window.contains_char "." directory = true ->
  window.contains_char "/" name = false ->
  window.contains_char "." name = false ->
  window.get_tab_name (Some (directory +:+ "/" +:+ name)) = name
  /\ window.contains_char "." (window.get_tab_name (Some (directory +:+ "/" +:+ name)))
     = false.
Proof.
  intros Hdir Hsep Hdot.
  assert (window.get_tab_name (Some (directory +:+ "/" +:+ name)) = name) as E.
  { unfold window.get_tab_name. rewrite contains_char_app, Hdir. cbn [orb negb].
    apply basename_after_sep, Hsep. }
  rewrite E. auto.
Qed.

End TabName.

Section SaveProperties.

Context {Serialized : Type}.

(** X13: when serialization and writing succeed, [save_as] writes exactly
    one file, whose name ends in ".json": the name given or chosen in the
    dialog if that ends in ".json" already, that name with ".json"
    appended otherwise.  The dialog is asked only when no name is given;
    the tab is retitled from the name written, which becomes the tree's
    [full_path]. *)
Theorem save_as_writes_json (serialized : Serialized) (filename : option string)
    (dialog_answer : string) (full_path : option string) :
  let chosen := default dialog_answer filename in
  let written :=
    if window.endswith chosen ".json" then chosen else chosen +:+ ".json" in
  window.save_as (Some serialized) filename dialog_answer true full_path =
    ((if filename is None then [window.AskSaveFileName] else []) ++
       [window.WriteFile written serialized;
        window.SetTabText (window.get_tab_name (Some written))],
     Some written)
  /\ window.endswith written ".json" = true
  /\ window.written_files
       (window.save_as (Some serialized) filename dialog_answer true full_path).1
     = [written].
Proof.
  intros chosen written. unfold window.save_as, window.serialize_tree.
  destruct filename as [f|]; cbv [default from_option id] in chosen;
    subst written chosen;
    destruct (window.endswith _ ".json") eqn:E; cbn [negb app fst snd];
    repeat split; try reflexivity; try exact E; apply endswith_app.
Qed.

(** X14: cancelling the dialog does not cancel the save: the dialog then
    answers the empty string, and [save_as] goes on to write the file
    ".json", retitles the tab ".json" and makes ".json" the tree's
    [full_path]. *)
Theorem save_as_cancelled_dialog (serialized : Serialized) (full_path : option string) :
  window.save_as (Some serialized) None "" true full_path =
  ([window.AskSaveFileName;
    window.WriteFile ".json" serialized;
    window.SetTabText ".json"],
   Some ".json").
Proof. reflexivity. Qed.

(** X15: a failed save leaves the tree as it was: when serialization fails
    or the block that opens and writes the file raises [OSError],
    [save_as] logs the exception, keeps [full_path] and does not retitle
    the tab.  When it is serialization that fails, nothing else happens:
    the dialog is not opened and no file is opened.  When it is the write
    that raises, the file it was attempted on has a name ending in
    ".json"; that file may have been created or truncated by then, and
    nothing is said here about its content. *)
Theorem save_as_failure_keeps_path (serialize_result : option Serialized)
    (filename : option string) (dialog_answer : string) (write_ok : bool)
    (full_path : option string) :
  serialize_result = None \/ write_ok = false ->
  let result :=
    window.save_as serialize_result filename dialog_answer write_ok full_path in
  result.2 = full_path
  /\ (forall text, window.SetTabText text ∉ result.1)
  /\ (exists msg, window.LogException msg ∈ result.1)
  /\ (serialize_result = None -> result.1 = [window.LogException "Error serializing file"])
  /\ (forall f, window.WriteRaised f ∈ result.1 ->
        is_Some serialize_result /\ window.endswith f ".json" = true).
Proof.
  intros Hfail result. unfold result, window.save_as, window.serialize_tree.
  destruct serialize_result as [serialized|].
  - destruct Hfail as [Hfail|Hfail]; [discriminate|]. subst write_ok.
    assert (forall chosen,
               window.endswith
                 (if negb (window.endswith chosen ".json")
                  then chosen +:+ ".json" else chosen) ".json" = true) as Hends.
    { intros chosen. destruct (window.endswith chosen ".json") eqn:E; cbn [negb];
        [exact E|apply endswith_app]. }
    destruct filename as [f|]; cbn [app fst snd].
    + split; [reflexivity|]. split; [|split; [|split; [|]]].
      * intros text H. rewrite !elem_of_cons, elem_of_nil in H.
        destruct H as [H|[H|[]]]; discriminate H.
      * eexists. apply list_elem_of_further, list_elem_of_here.
      * discriminate.
      * intros g H. split; [eauto|]. rewrite !elem_of_cons, elem_of_nil in H.
        destruct H as [H|[H|[]]]; try discriminate H.
        injection H as ->. apply Hends.
    + split; [reflexivity|]. split; [|split; [|split; [|]]].
      * intros text H. rewrite !elem_of_cons, elem_of_nil in H.
        destruct H as [H|[H|[H|[]]]]; discriminate H.
      * eexists. do 2 apply list_elem_of_further. apply list_elem_of_here.
      * discriminate.
      * intros g H. split; [eauto|]. rewrite !elem_of_cons, elem_of_nil in H.
        destruct H as [H|[H|[H|[]]]]; try discriminate H.
        injection H as ->. apply Hends.
  - cbn [fst snd]. split; [reflexivity|]. split; [|split; [|split; [|]]].
    + intros text H%list_elem_of_singleton. discriminate H.
    + eexists. apply list_elem_of_here.
    + reflexivity.
    + intros g H%list_elem_of_singleton. discriminate H.
Qed.

(** X16: after a successful [save_as], [save] writes to the same file
    again: it does not ask for a name and does not append another
    ".json", and the tree's [full_path] stays what it is. *)
Theorem save_after_save_as (serialized serialized' : Serialized)
    (filename : option string) (dialog_answer dialog_answer' : string)
    (full_path : option string) (saved : string) :
  (window.save_as (Some serialized) filename dialog_answer true full_path).2
    = Some saved ->
  window.save (Some serialized') dialog_answer' true (Some saved) =
  ([window.WriteFile saved serialized';
    window.SetTabText (window.get_tab_name (Some saved))],
   Some saved).
Proof.
  intros Hsaved.
  destruct (save_as_writes_json serialized filename dialog_answer full_path)
    as (Heq & Hends & _).
  rewrite Heq in Hsaved. cbn [snd] in Hsaved. injection Hsaved as Hsaved.
  rewrite Hsaved in Hends.
  unfold window.save, window.save_as, window.serialize_tree.
  rewrite Hends. reflexivity.
Qed.

End SaveProperties.

Section SwapProperties.

Context {A Group Comparison Item : Type}.
Variable py_eq : A -> A -> bool.
Variable group_config : Group -> A.
Variable comparison_of : Comparison -> A.
Variable widget_data : Item -> A.

Local Abbreviation Prepared := (@window.Prepared Group Comparison).
Local Abbreviation prepared_config :=
  (window.prepared_config group_config comparison_of).
Local Abbreviation gather := (window.gather group_config comparison_of).
Local Abbreviation pair_items :=
  (@window.pair_items A Group Comparison Item py_eq widget_data).
Local Abbreviation swap_item_config_list :=
  (window.swap_item_config_list py_eq group_config comparison_of widget_data).

Lemma gather_loop {X} (config_of : X -> A) (prepared_of : X -> Prepared)
    (l : list X) (config_list : list A) (prep_list : list Prepared) :
  fold_left
    (fun '(config_list, prep_list) x =>
       (config_list ++ [config_of x], prep_list ++ [prepared_of x]))
    l (config_list, prep_list) =
  (config_list ++ map config_of l, prep_list ++ map prepared_of l).
Proof.
  revert config_list prep_list.
  induction l as [|x l IH]; intros config_list prep_list.
  - cbn. rewrite !app_nil_r. reflexivity.
  - cbn [fold_left map]. rewrite IH, <- !app_assoc. reflexivity.
Qed.

Lemma gather_lists (groups : list Group) (comparisons : list Comparison) :
  gather groups comparisons =
  (map prepared_config
     (map window.PreparedGroup groups ++ map window.PreparedComparison comparisons),
   map window.PreparedGroup groups ++ map window.PreparedComparison comparisons).
Proof.
  unfold window.gather.
  rewrite (gather_loop group_config window.PreparedGroup).
  rewrite (gather_loop comparison_of window.PreparedComparison).
  cbn [app]. rewrite map_app, !map_map. reflexivity.
Qed.

(** X17: the two lists [_swap_to_run_widgets] gathers go in step:
    [prep_list] holds the prepared groups, then the prepared comparisons,
    in walking order; [config_list] holds, position by position, the
    configuration each was made from; so the lists have the same length. *)
Theorem gather_lists_in_step (groups : list Group) (comparisons : list Comparison) :
  (gather groups comparisons).2 =
    map window.PreparedGroup groups ++ map window.PreparedComparison comparisons
  /\ (gather groups comparisons).1 = map prepared_config (gather groups comparisons).2
  /\ length (gather groups comparisons).1 = length (gather groups comparisons).2.
Proof.
  rewrite gather_lists. cbn [fst snd]. rewrite length_map. auto.
Qed.

(** On lists that go in step, [match_in_list_mapping] finds the first
    prepared object made from a configuration equal to the value. *)
Lemma match_in_list_mapping_in_step (v : A) (prep_list : list Prepared) :
  window.match_in_list_mapping py_eq v (map prepared_config prep_list) prep_list =
  match List.find (fun prep => py_eq (prepared_config prep) v) prep_list with
  | Some prep => window.RValue prep
  | None => window.RNone
  end.
Proof.
  unfold window.match_in_list_mapping.
  induction prep_list as [|p l IH]; [reflexivity|].
  cbn [map window.contains window.index List.find].
  destruct (py_eq (prepared_config p) v); [reflexivity|].
  cbn [orb]. destruct (window.contains py_eq v (map prepared_config l)); cbn [negb] in *.
  - destruct (window.index py_eq v (map prepared_config l)) as [i|]; cbn [fmap option_fmap option_map].
    + exact IH.
    + exact IH.
  - exact IH.
Qed.

(** X18: [_swap_to_run_widgets] never raises while pairing, and
    [item_config_list] has one pair per tree item, in the iterator's
    order.  For a [ConfigurationFile] with at least one prepared group or
    comparison, an item is paired with the first prepared object (groups
    before comparisons) whose configuration equals the item's widget data,
    and with [None] when there is none; otherwise every item is paired
    with its own widget data. *)
Theorem swap_item_config_list_pairs (is_configuration_file : bool)
    (groups : list Group) (comparisons : list Comparison) (items : list Item) :
  let prep_list :=
    map window.PreparedGroup groups ++ map window.PreparedComparison comparisons in
  swap_item_config_list is_configuration_file groups comparisons items =
  inr (map
         (fun item =>
            (item,
             if is_configuration_file && window.list_truthy prep_list then
               match List.find
                       (fun prep => py_eq (prepared_config prep) (widget_data item))
                       prep_list with
               | Some prep => window.PairedPrepared prep
               | None => window.PairedNone
               end
             else window.PairedData (widget_data item)))
         items).
Proof.
  intros prep_list. unfold window.swap_item_config_list.
  destruct is_configuration_file; cbn [andb].
  - rewrite gather_lists. fold prep_list.
    assert (window.list_truthy (map prepared_config prep_list) =
            window.list_truthy prep_list) as Htruthy.
    { destruct prep_list; reflexivity. }
    induction items as [|item items IH]; [reflexivity|].
    cbn [window.pair_items map]. rewrite match_in_list_mapping_in_step, IH, Htruthy.
    destruct (List.find _ prep_list), (window.list_truthy prep_list); reflexivity.
  - induction items as [|item items IH]; [reflexivity|].
    cbn [window.pair_items map]. rewrite IH. reflexivity.
Qed.

End SwapProperties.

(** * Properties of the tree items *)

Section AtefItemProperties.

Context {Widget ItemCls WidgetCls : Type}.
Variable isinstance_widget : Widget -> WidgetCls -> bool.
Variable isinstance_item : ItemCls -> ItemCls -> bool.

Local Abbreviation AtefItem := (@page.AtefItem Widget ItemCls).

(** The loop stops at the nearest item, from [ancestor] upwards, that
    passes the test. *)
Lemma climb_nearest (test : AtefItem -> bool) (ancestor : AtefItem) :
  match page.climb test ancestor with
  | Some found =>
      exists nearer farther,
        ancestor :: page.ancestors ancestor = nearer ++ found :: farther
        /\ test found = true
        /\ Forall (fun a => test a = false) nearer
  | None => Forall (fun a => test a = false) (ancestor :: page.ancestors ancestor)
  end.
Proof.
  revert ancestor. fix IH 1. intros [text0 cls w [parent|]].
  - cbn [page.climb page.ancestors].
    destruct (test (page.mkAtefItem text0 cls w (Some parent))) eqn:E.
    + exists [], (parent :: page.ancestors parent). auto.
    + specialize (IH parent). destruct (page.climb test parent) as [found|].
      * destruct IH as (nearer & farther & Heq & Htest & Hnear).
        exists (page.mkAtefItem text0 cls w (Some parent) :: nearer), farther.
        rewrite Heq. auto.
      * constructor; assumption.
  - clear IH. cbn [page.climb page.ancestors].
    destruct (test (page.mkAtefItem text0 cls w None)) eqn:E.
    + exists [], []. auto.
    + constructor; [assumption|constructor].
Qed.

Lemma climb_from_parent (test : AtefItem -> bool) (self : AtefItem) :
  match
    match page.parent_tree_item self with
    | Some ancestor => page.climb test ancestor
    | None => None
    end
  with
  | Some found =>
      exists nearer farther,
        page.ancestors self = nearer ++ found :: farther
        /\ test found = true
        /\ Forall (fun a => test a = false) nearer
  | None => Forall (fun a => test a = false) (page.ancestors self)
  end.
Proof.
  destruct self as [text0 cls w [parent|]]; cbn [page.parent_tree_item page.ancestors].
  - apply climb_nearest.
  - constructor.
Qed.

(** X19: [find_ancestor_by_widget] and [find_ancestor_by_item] return the
    nearest strict ancestor that passes their test (a widget that is an
    instance of the class; an item that is an instance of the class):
    everything between the item and the ancestor returned fails the test;
    they return [None] exactly when every ancestor fails it.  The item
    itself is never considered. *)
Theorem find_ancestor_nearest (self : AtefItem) (wcls : WidgetCls) (icls : ItemCls) :
  match page.find_ancestor_by_widget isinstance_widget self wcls with
  | Some found =>
      exists nearer farther,
        page.ancestors self = nearer ++ found :: farther
        /\ page.has_widget_of isinstance_widget wcls found = true
        /\ Forall (fun a => page.has_widget_of isinstance_widget wcls a = false) nearer
  | None =>
      Forall (fun a => page.has_widget_of isinstance_widget wcls a = false)
        (page.ancestors self)
  end
  /\ match page.find_ancestor_by_item isinstance_item self icls with
     | Some found =>
         exists nearer farther,
           page.ancestors self = nearer ++ found :: farther
           /\ isinstance_item (page.item_cls found) icls = true
           /\ Forall (fun a => isinstance_item (page.item_cls a) icls = false) nearer
     | None =>
         Forall (fun a => isinstance_item (page.item_cls a) icls = false)
           (page.ancestors self)
     end.
Proof.
  split.
  - apply (climb_from_parent (page.has_widget_of isinstance_widget wcls)).
  - apply (climb_from_parent (fun a => isinstance_item (page.item_cls a) icls)).
Qed.

End AtefItemProperties.

(** * Properties of the PV compatibility layer *)

Section PvProperties.

Import pyepics_compat.

Lemma key_in_keys (m : gmap Z (Wrapped * gmap string PyVal)) (j : Z) :
  is_Some (m !! j) <-> j ∈ (map_to_list m).*1.
Proof.
  rewrite list_elem_of_fmap. split.
  - intros [v Hv]. exists (j, v). split; [reflexivity|].
    apply elem_of_map_to_list, Hv.
  - intros ([j' v] & -> & Hin). exists v. apply elem_of_map_to_list, Hin.
Qed.

Lemma foldr_max_upper (k : Z) (ks : list Z) (j : Z) :
  j ∈ k :: ks -> j <= foldr Z.max k ks.
Proof.
  induction ks as [|x ks IH]; cbn [foldr].
  - intros ->%list_elem_of_singleton. lia.
  - rewrite !elem_of_cons. intros [->|[->|Hin]].
    + assert (k <= foldr Z.max k ks) by (apply IH, list_elem_of_here). lia.
    + lia.
    + assert (j <= foldr Z.max k ks) by (apply IH, list_elem_of_further, Hin). lia.
Qed.

Lemma max_key_upper (m : gmap Z (Wrapped * gmap string PyVal)) (j : Z) :
  is_Some (m !! j) -> j <= max_key m.
Proof.
  rewrite key_in_keys. unfold max_key.
  destruct ((map_to_list m).*1) as [|k ks]; [intros H; inversion H|].
  apply foldr_max_upper.
Qed.

(** X20: a callback added without an index never takes the place of
    another: the index [add_callback] chooses and returns is greater than
    every index in use, the callback is stored under it with its keyword
    arguments, and every callback registered before is still registered
    under its own index. *)
Theorem add_callback_fresh_index (self : PV) (cb : nat) (run_now : bool)
    (kwargs : gmap string PyVal) :
  exists index : Z,
    (add_callback self (Some cb) None run_now kwargs).1.2 = Some index
    /\ (forall j, is_Some (callbacks self !! j) -> j < index)
    /\ callbacks self !! index = None
    /\ callbacks (add_callback self (Some cb) None run_now kwargs).1.1 !! index
       = Some (wrap_callback "monitor" cb, kwargs)
    /\ (forall j v, callbacks self !! j = Some v ->
          callbacks (add_callback self (Some cb) None run_now kwargs).1.1 !! j = Some v).
Proof.
  unfold add_callback. cbn [fst snd callbacks].
  set (index := if bool_decide (0 < size (callbacks self))%nat
                then 1 + max_key (callbacks self) else 1).
  assert (forall j, is_Some (callbacks self !! j) -> j < index) as Hfresh.
  { intros j Hj. unfold index. case_bool_decide as Hsize.
    - pose proof (max_key_upper _ _ Hj). lia.
    - assert (callbacks self = ∅) as Hempty by (apply map_size_empty_inv; lia).
      rewrite Hempty, lookup_empty in Hj. destruct Hj as [? Hj]. discriminate Hj. }
  assert (callbacks self !! index = None) as Hnone.
  { destruct (callbacks self !! index) eqn:E; [|reflexivity].
    specialize (Hfresh index (ltac:(eauto))). lia. }
  exists index. split; [reflexivity|]. split; [exact Hfresh|]. split; [exact Hnone|].
  split; [apply lookup_insert_eq|].
  intros j v Hj. rewrite lookup_insert_ne; [exact Hj|].
  intros <-. rewrite Hnone in Hj. discriminate Hj.
Qed.

Lemma cb_index_run_callback (self : PV) (index : Z) :
  is_Some (callbacks self !! index) ->
  omap cb_index (run_callback self index) = [index].
Proof.
  intros [[fcn kwargs] Hcb]. unfold run_callback. rewrite Hcb.
  cbn [omap list_omap]. unfold cb_index. cbn [keywords].
  rewrite lookup_insert_eq. reflexivity.
Qed.

Lemma cb_index_run_each (self : PV) (indices : list Z) :
  Forall (fun i => is_Some (callbacks self !! i)) indices ->
  omap cb_index (indices ≫= run_callback self) = indices.
Proof.
  induction 1 as [|i indices Hi _ IH]; [reflexivity|].
  cbn [mbind list_bind]. rewrite omap_app, cb_index_run_callback, IH by exact Hi.
  reflexivity.
Qed.

Lemma length_run_each (self : PV) (indices : list Z) :
  Forall (fun i => is_Some (callbacks self !! i)) indices ->
  length (indices ≫= run_callback self) = length indices.
Proof.
  induction 1 as [|i indices [[fcn kw] Hi] _ IH]; [reflexivity|].
  cbn [mbind list_bind]. rewrite length_app, IH.
  unfold run_callback. rewrite Hi. reflexivity.
Qed.

Lemma sorted_le_nodup_lt (l : list Z) :
  StronglySorted Z.le l -> NoDup l -> StronglySorted Z.lt l.
Proof.
  induction 1 as [|x l Hsorted IH Hall]; intros Hnd; [constructor|].
  apply NoDup_cons in Hnd as [Hx Hnd]. constructor; [apply IH, Hnd|].
  rewrite Forall_forall in *. intros y Hy.
  assert (x <> y) by (intros ->; apply Hx, Hy).
  specialize (Hall y Hy). lia.
Qed.

(** X21: [run_callbacks] calls every registered callback exactly once, in
    strictly increasing order of index: the indices the calls carry in
    [cb_info] are the keys of [callbacks], sorted. *)
Theorem run_callbacks_in_index_order (self : PV) :
  omap cb_index (run_callbacks self) ≡ₚ (map_to_list (callbacks self)).*1
  /\ StronglySorted Z.lt (omap cb_index (run_callbacks self))
  /\ length (run_callbacks self) = size (callbacks self).
Proof.
  assert (sorted_indices self ≡ₚ (map_to_list (callbacks self)).*1) as Hperm
    by apply merge_sort_Permutation.
  assert (omap cb_index (run_callbacks self) = sorted_indices self) as Hidx.
  { apply cb_index_run_each. rewrite Forall_forall. intros i Hi.
    apply key_in_keys. rewrite <- Hperm. exact Hi. }
  split; [rewrite Hidx; exact Hperm|]. split.
  - rewrite Hidx. apply sorted_le_nodup_lt.
    + apply StronglySorted_merge_sort; apply _.
    + rewrite Hperm. apply NoDup_fst_map_to_list.
  - transitivity (length (sorted_indices self)).
    + apply length_run_each. rewrite Forall_forall. intros i Hi.
      apply key_in_keys. rewrite <- Hperm. exact Hi.
    + rewrite Hperm, length_fmap. apply length_map_to_list.
Qed.

(** X22: the keyword arguments a callback is called with are the PV's
    [_args], overridden by the keyword arguments the callback was
    registered with, overridden in turn by [cb_info = (index, self)]: a
    registered [cb_info] never reaches the callback. *)
Theorem run_callback_keywords (self : PV) (index : Z) (fcn : Wrapped)
    (kwargs : gmap string PyVal) :
  callbacks self !! index = Some (fcn, kwargs) ->
  exists kwd : gmap string PyVal,
    run_callback self index = [mkCall fcn [] kwd]
    /\ kwd !! "cb_info" = Some (VTuple2 (VInt index) VSelf)
    /\ forall k : string,
        k <> "cb_info" ->
        kwd !! k = match kwargs !! k with
                   | Some v => Some v
                   | None => _args self !! k
                   end.
Proof.
  intros Hcb. unfold run_callback. rewrite Hcb. eexists. split; [reflexivity|].
  split; [apply lookup_insert_eq|].
  intros k Hk. rewrite lookup_insert_ne by congruence.
  unfold update. destruct (kwargs !! k) as [v|] eqn:E.
  - apply lookup_union_Some_l, E.
  - apply lookup_union_r, E.
Qed.

Lemma fromkeys_lookup (keys : list string) (k : string) :
  default VNone (fromkeys keys !! k) = VNone.
Proof.
  induction keys as [|key keys IH]; [reflexivity|].
  cbn [fromkeys foldr]. destruct (decide (key = k)) as [->|Hne].
  - rewrite lookup_insert_eq. reflexivity.
  - rewrite lookup_insert_ne by exact Hne. exact IH.
Qed.

(** X23: right after construction, [_getarg] gives the PV name for
    "pvname", the [count] argument for "count", [-1] for "nelm" and
    "unknown" for "type", "typefull" and "access"; for every other
    argument name, known or not, it gives [None].  The metadata dict has
    no key "lower_ctrl_limit" and no key "lower_disp_limit": the two
    names are fused into one key by the missing comma in [_fields]. *)
Theorem init_args (pvname : string) (callback : CallbackArg) (count : option Z)
    (connection_callback access_callback : option nat) (arg : string) :
  let self := __init__ pvname callback count connection_callback access_callback in
  arg ∉ ["pvname"; "count"; "nelm"; "type"; "typefull"; "access"] ->
  _getarg self arg = VNone
  /\ _getarg self "pvname" = VStr pvname
  /\ _getarg self "count" = int_or_none count
  /\ _getarg self "nelm" = VInt (-1)
  /\ _getarg self "type" = VStr "unknown"
  /\ _getarg self "typefull" = VStr "unknown"
  /\ _getarg self "access" = VStr "unknown"
  /\ get_ctrlvars self !! "lower_ctrl_limit" = None
  /\ get_ctrlvars self !! "lower_disp_limit" = None
  /\ get_ctrlvars self !! "lower_ctrl_limitlower_disp_limit" = Some VNone.
Proof.
  intros self Harg. split; [|repeat split; vm_compute; reflexivity].
  unfold self, _getarg, __init__, update. cbn [_args].
  rewrite !not_elem_of_cons in Harg.
  destruct Harg as (H1 & H2 & H3 & H4 & H5 & H6 & _).
  rewrite lookup_union_r.
  - apply fromkeys_lookup.
  - rewrite !lookup_insert_ne by congruence. apply lookup_singleton_ne. congruence.
Qed.

Lemma enumerate_callables_lookup (callback : list (option nat)) (start i : Z) :
  enumerate_callables start callback !! i =
  match (if bool_decide (start <= i) then callback !! Z.to_nat (i - start) else None) with
  | Some (Some cb) => Some (wrap_callback "monitor" cb, ∅)
  | _ => None
  end.
Proof.
  revert start. induction callback as [|[cb|] rest IH]; intros start;
    cbn [enumerate_callables].
  - rewrite lookup_empty. case_bool_decide; reflexivity.
  - destruct (decide (start = i)) as [->|Hne].
    + rewrite lookup_insert_eq, bool_decide_eq_true_2 by lia.
      replace (Z.to_nat (i - i)) with O by lia. reflexivity.
    + rewrite lookup_insert_ne by exact Hne. rewrite IH.
      case_bool_decide as H1; case_bool_decide as H2; try lia; try reflexivity.
      replace (Z.to_nat (i - start)) with (S (Z.to_nat (i - (start + 1)))) by lia.
      reflexivity.
  - rewrite IH.
    case_bool_decide as H1; case_bool_decide as H2; try lia; try reflexivity.
    + replace (Z.to_nat (i - start)) with (S (Z.to_nat (i - (start + 1)))) by lia.
      reflexivity.
    + assert (i = start) as -> by lia.
      replace (Z.to_nat (start - start)) with O by lia. reflexivity.
Qed.

(** X24: callbacks given to the constructor as a list or tuple are
    registered under their positions in it: index [i] holds the monitor
    callback made from element [i] when that element is callable, with no
    keyword arguments; the positions of the elements that are not callable
    stay unused, and so does every index outside the list. *)
Theorem init_callbacks_by_position (pvname : string) (callback : list (option nat))
    (count : option Z) (connection_callback access_callback : option nat) (i : Z) :
  callbacks (__init__ pvname (Several callback) count connection_callback access_callback)
    !! i =
  match (if bool_decide (0 <= i) then callback !! Z.to_nat i else None) with
  | Some (Some cb) => Some (wrap_callback "monitor" cb, ∅)
  | _ => None
  end.
Proof.
  cbn [__init__ callbacks]. rewrite enumerate_callables_lookup.
  replace (i - 0) with i by lia. reflexivity.
Qed.

(** X25: [run_now] has an effect only on a connected PV.  On a PV fresh
    from the constructor, [add_callback] with [run_now] set registers the
    callback and calls nothing; once [_mark_as_connected] has run, whatever
    its argument (also [False]), the same call registers the callback and
    calls it at once, with its index in [cb_info]. *)
Theorem run_now_needs_connection (pvname : string) (callback : CallbackArg)
    (count : option Z) (connection_callback access_callback : option nat)
    (cb : nat) (kwargs : gmap string PyVal) (connected_arg : bool) :
  let fresh := __init__ pvname callback count connection_callback access_callback in
  let marked := (_mark_as_connected fresh connected_arg).1 in
  (add_callback fresh (Some cb) None true kwargs).2 = []
  /\ connected marked = true
  /\ exists (index : Z) (kwd : gmap string PyVal),
      (add_callback marked (Some cb) None true kwargs).1.2 = Some index
      /\ (add_callback marked (Some cb) None true kwargs).2 =
         [mkCall (wrap_callback "monitor" cb) [] kwd]
      /\ cb_index (mkCall (wrap_callback "monitor" cb) [] kwd) = Some index.
Proof.
  intros fresh marked. split; [reflexivity|]. split; [reflexivity|].
  unfold add_callback. cbn [fst snd connected marked _mark_as_connected andb].
  do 2 eexists. split; [reflexivity|].
  unfold run_callback. cbn [callbacks]. rewrite lookup_insert_eq.
  split; [reflexivity|].
  unfold cb_index. cbn [keywords]. rewrite lookup_insert_eq. reflexivity.
Qed.

End PvProperties.

(** * Properties of [edit_items] *)

Section EditItemsProperties.

Import utils.

Lemma not_in_elem (items others : list string) (x : string) :
  x ∈ not_in items others <-> x ∈ items /\ x ∉ others.
Proof.
  unfold not_in. rewrite list_elem_of_In, List.filter_In, <- list_elem_of_In.
  rewrite negb_true_iff, bool_decide_eq_false. reflexivity.
Qed.

Lemma not_in_all_in (items others : list string) :
  (forall x, x ∈ items -> x ∈ others) -> not_in items others = [].
Proof.
  intros Hall. destruct (not_in items others) as [|x l] eqn:E; [reflexivity|].
  assert (x ∈ not_in items others) as Hx by (rewrite E; apply list_elem_of_here).
  apply not_in_elem in Hx as [Hin Hout]. destruct (Hout (Hall x Hin)).
Qed.

(** X26: an edit that changes nothing does nothing: when the old and the
    new selection have the same members, [edit_items] calls none of
    [_add_item], [_remove_item], [_edit_item], whatever the list holds and
    whether or not duplicates are allowed. *)
Theorem edit_items_same_members (allow_duplicates : bool) (data : option (list string))
    (old_items new_items : list string) :
  (forall x, x ∈ old_items <-> x ∈ new_items) ->
  edit_items allow_duplicates data old_items new_items = inr [].
Proof.
  intros Hsame. unfold edit_items.
  rewrite (not_in_all_in old_items new_items) by (intros x; apply Hsame).
  rewrite (not_in_all_in new_items old_items) by (intros x; apply Hsame).
  destruct allow_duplicates; reflexivity.
Qed.

Lemma zip_longest_nil_r (l : list string) :
  zip_longest l [] = map OnlyOld l.
Proof. induction l as [|x l IH]; [reflexivity|]. cbn. rewrite IH. reflexivity. Qed.

Lemma zip_longest_elem (l1 l2 : list string) (pair : Pair) :
  pair ∈ zip_longest l1 l2 ->
  match pair with
  | Both old new => old ∈ l1 /\ new ∈ l2
  | OnlyOld old => old ∈ l1
  | OnlyNew new => new ∈ l2
  end.
Proof.
  revert l2. induction l1 as [|x l1 IH]; intros l2.
  - destruct l2 as [|y l2]; cbn [zip_longest]; [intros H; inversion H|].
    intros (z & -> & Hz)%list_elem_of_fmap. exact Hz.
  - destruct l2 as [|y l2]; cbn [zip_longest].
    + rewrite (zip_longest_nil_r l1).
      intros [->|(z & -> & Hz)%list_elem_of_fmap]%elem_of_cons.
      * apply list_elem_of_here.
      * apply list_elem_of_further, Hz.
    + intros [->|Hin]%elem_of_cons.
      * split; apply list_elem_of_here.
      * specialize (IH l2 Hin). destruct pair as [o n|o|n].
        -- destruct IH. split; apply list_elem_of_further; assumption.
        -- apply list_elem_of_further, IH.
        -- apply list_elem_of_further, IH.
Qed.

(** What the filtering of [new_uniques] against the list keeps. *)
Lemma new_uniques_kept (allow_duplicates : bool) (data : option (list string))
    (new_uniques kept : list string) :
  (if negb allow_duplicates then
     match new_uniques, data with
     | [], _ => inr []
     | _ :: _, None => inl "TypeError"
     | _ :: _, Some current => inr (not_in new_uniques current)
     end
   else inr new_uniques) = (inr kept : string + list string) ->
  forall x, x ∈ kept ->
    x ∈ new_uniques
    /\ (allow_duplicates = false -> forall current, data = Some current -> x ∉ current).
Proof.
  destruct allow_duplicates; cbn [negb].
  - intros [= <-] x Hx. split; [exact Hx|discriminate].
  - destruct new_uniques as [|y l] eqn:E.
    + intros [= <-] x Hx. inversion Hx.
    + rewrite <- E. destruct data as [current|]; [|discriminate].
      intros [= <-] x [Hx Hcur]%not_in_elem. split; [exact Hx|].
      intros _ current' [= <-]. exact Hcur.
Qed.

(** X27: [edit_items] leaves alone what the two selections share: an item
    it removes or edits away is in the old selection and not in the new
    one; an item it adds or edits in is in the new selection and not in
    the old one, and, when duplicates are not allowed, not in the list
    already. *)
Theorem edit_items_touches_differences (allow_duplicates : bool)
    (data : option (list string)) (old_items new_items : list string)
    (calls : list ItemCall) (call : ItemCall) :
  edit_items allow_duplicates data old_items new_items = inr calls ->
  call ∈ calls ->
  (forall old, outgoing call = Some old -> old ∈ old_items /\ (old ∉ new_items))
  /\ (forall new, incoming call = Some new ->
        new ∈ new_items /\ (new ∉ old_items)
        /\ (allow_duplicates = false ->
            forall current, data = Some current -> new ∉ current)).
Proof.
  unfold edit_items. intros Hcalls Hcall.
  set (old_uniques := not_in old_items new_items) in *.
  assert (exists new_uniques,
             calls = map dispatch (zip_longest old_uniques new_uniques)
             /\ forall new, new ∈ new_uniques ->
                  new ∈ new_items /\ (new ∉ old_items)
                  /\ (allow_duplicates = false ->
                      forall current, data = Some current -> new ∉ current))
    as (new_uniques & -> & Hnew).
  { pose proof (new_uniques_kept allow_duplicates data (not_in new_items old_items))
      as Hkept.
    destruct (if negb allow_duplicates then _ else _) as [ex|kept];
      [discriminate|].
    injection Hcalls as <-. exists kept. split; [reflexivity|].
    intros new Hin. destruct (Hkept kept eq_refl new Hin) as [H1 H2].
    apply not_in_elem in H1 as [H1 H1']. auto. }
  apply list_elem_of_fmap in Hcall as (pair & -> & Hpair).
  apply zip_longest_elem in Hpair.
  destruct pair as [o n|o|n]; cbn [dispatch outgoing incoming]; split;
    intros x [= <-] || intros x Hx; try discriminate.
  - destruct Hpair as [Ho _]. apply not_in_elem, Ho.
  - destruct Hpair as [_ Hn]. apply Hnew, Hn.
  - apply not_in_elem, Hpair.
  - apply Hnew, Hpair.
Qed.

Lemma dispatch_zip_longest (l1 l2 : list string) :
  map dispatch (zip_longest l1 l2) =
  map (fun pair : string * string => _edit_item pair.1 pair.2) (zip l1 l2) ++
  map _remove_item (drop (length l2) l1) ++
  map _add_item (drop (length l1) l2).
Proof.
  revert l2. induction l1 as [|x l1 IH]; intros l2.
  - destruct l2 as [|y l2]; [reflexivity|].
    cbn [zip_longest zip zip_with length drop map app].
    rewrite map_map. reflexivity.
  - destruct l2 as [|y l2].
    + rewrite zip_longest_nil_r, map_map. cbn [zip zip_with length drop map app].
      rewrite app_nil_r. reflexivity.
    + cbn [zip_longest zip zip_with length drop map app]. rewrite IH. reflexivity.
Qed.

(** X28: the calls of [edit_items] come in this order: first the in-place
    edits, pairing the old items to replace with the new items to put in,
    position by position; then, for what is left over, only removals (more
    old items than new ones) or only additions (more new ones), never both. *)
Theorem edit_items_edits_then_rest (allow_duplicates : bool)
    (data : option (list string)) (old_items new_items : list string)
    (calls : list ItemCall) :
  edit_items allow_duplicates data old_items new_items = inr calls ->
  exists old_uniques new_uniques : list string,
    old_uniques = not_in old_items new_items
    /\ new_uniques ⊆ not_in new_items old_items
    /\ calls =
       map (fun pair : string * string => _edit_item pair.1 pair.2)
         (zip old_uniques new_uniques) ++
       map _remove_item (drop (length new_uniques) old_uniques) ++
       map _add_item (drop (length old_uniques) new_uniques)
    /\ (drop (length new_uniques) old_uniques = []
        \/ drop (length old_uniques) new_uniques = []).
Proof.
  unfold edit_items. intros Hcalls.
  assert (exists new_uniques,
             new_uniques ⊆ not_in new_items old_items
             /\ calls = map dispatch
                          (zip_longest (not_in old_items new_items) new_uniques))
    as (new_uniques & Hsub & ->).
  { pose proof (new_uniques_kept allow_duplicates data (not_in new_items old_items))
      as Hkept.
    destruct (if negb allow_duplicates then _ else _) as [ex|kept];
      [discriminate|].
    injection Hcalls as <-. exists kept. split; [|reflexivity].
    intros x Hx. apply (Hkept kept eq_refl x Hx). }
  exists (not_in old_items new_items), new_uniques.
  split; [reflexivity|]. split; [exact Hsub|]. split; [apply dispatch_zip_longest|].
  destruct (decide (length (not_in old_items new_items) <= length new_uniques)%nat).
  - left. apply drop_ge. assumption.
  - right. apply drop_ge. lia.
Qed.

End EditItemsProperties.

(** * The further properties at work *)

(** X4 on the sample: the same names in another order, one of them twice. *)
Lemma filter_order_irrelevant_sample :
  (forall n, n ∈ ["b"; "im1l0"] <-> n ∈ ["im1l0"; "b"; "b"])
  /\ sample.check_config_file sample.config (Some ["b"; "im1l0"]) =
     sample.check_config_file sample.config (Some ["im1l0"; "b"; "b"]).
Proof.
  assert (forall n, n ∈ ["b"; "im1l0"] <-> n ∈ ["im1l0"; "b"; "b"]) as H.
  { intros n. rewrite !elem_of_cons, !elem_of_nil. tauto. }
  split; [exact H|].
  apply (filter_order_irrelevant
           sample.device_name sample.cls_name sample.new_device
           sample.pv_config_to_device_config sample.check_device sample.happi
           sample.config ["b"; "im1l0"] ["im1l0"; "b"; "b"] H).
Defined.

(** X5 on the sample: a PV configuration without a name, against no
    filter and against the filter ["PVConfig"]. *)
Lemma unnamed_pv_config_sample :
  let pv : PVConfiguration sample.Checks := mkPVConfiguration None None [sample.ok] in
  let check_pv_config :=
    check.check_pv_config sample.device_name sample.cls_name sample.new_device
      sample.pv_config_to_device_config sample.check_device in
  pv_name pv = None
  /\ (seq_truthy (Some ["PVConfig"]) = true ->
      yields (check_pv_config (Some ["PVConfig"]) pv) = [])
  /\ (seq_truthy (Some ["PVConfig"]) = false ->
      yields (check_pv_config (Some ["PVConfig"]) pv) =
        [check.pv_entry sample.new_device sample.pv_config_to_device_config
           sample.check_device pv]
      /\ exists c, Ev (NewDevice c "PVConfig") ∈ check_pv_config (Some ["PVConfig"]) pv).
Proof.
  intros pv check_pv_config. split; [reflexivity|].
  apply (unnamed_pv_config
           sample.device_name sample.cls_name sample.new_device
           sample.pv_config_to_device_config sample.check_device
           (Some ["PVConfig"]) pv).
  reflexivity.
Defined.

(** X6 on the sample, with a table that sends everything to WARNING. *)
Lemma log_results_custom_table_sample :
  let table : gmap Severity Z :=
    {[ success := logging.WARNING; warning := logging.WARNING;
       error := logging.WARNING ]} in
  let log_results := check.log_results sample.device_name sample.isEnabledFor in
  table <> ∅
  /\ (forall r, r ∈ [sample.late; sample.bad] -> is_Some (table !! severity r))
  /\ log_results "im1l0" error (DevCfg sample.dc_im1l0) [sample.late; sample.bad]
       (Some table) =
     (check.header sample.device_name "im1l0" error (DevCfg sample.dc_im1l0) ::
        omap (check.result_line sample.isEnabledFor table) [sample.late; sample.bad],
      Returns None)
  /\ log_results "im1l0" error (DevCfg sample.dc_im1l0) [sample.late; sample.bad]
       (Some ∅) =
     log_results "im1l0" error (DevCfg sample.dc_im1l0) [sample.late; sample.bad] None.
Proof.
  intros table log_results.
  assert (table <> ∅) as Hne by apply insert_non_empty.
  assert (forall r, r ∈ [sample.late; sample.bad] -> is_Some (table !! severity r))
    as Hall.
  { intros r. rewrite !elem_of_cons, elem_of_nil.
    intros [->|[->|[]]]; eexists; reflexivity. }
  split; [exact Hne|]. split; [exact Hall|].
  apply (log_results_custom_table sample.device_name sample.isEnabledFor
           "im1l0" error (DevCfg sample.dc_im1l0) [sample.late; sample.bad]
           table Hne Hall).
Defined.

(** X7 on the sample, with a table that knows success only. *)
Lemma log_results_missing_severity_sample :
  let table : gmap Severity Z := {[ success := logging.WARNING ]} in
  table <> ∅
  /\ (forall x, x ∈ [sample.ok] -> is_Some (table !! severity x))
  /\ table !! severity sample.late = None
  /\ check.log_results sample.device_name sample.isEnabledFor
       "im1l0" error (DevCfg sample.dc_im1l0)
       ([sample.ok] ++ sample.late :: [sample.bad]) (Some table) =
     (check.header sample.device_name "im1l0" error (DevCfg sample.dc_im1l0) ::
        omap (check.result_line sample.isEnabledFor table) [sample.ok],
      Raises "KeyError").
Proof.
  intros table.
  assert (table <> ∅) as Hne by apply map_non_empty_singleton.
  assert (forall x, x ∈ [sample.ok] -> is_Some (table !! severity x)) as Hall.
  { intros x ->%list_elem_of_singleton. eexists. reflexivity. }
  assert (table !! severity sample.late = None) as Hmiss by reflexivity.
  split; [exact Hne|]. split; [exact Hall|]. split; [exact Hmiss|].
  apply (log_results_missing_severity sample.device_name sample.isEnabledFor
           "im1l0" error (DevCfg sample.dc_im1l0) table
           [sample.ok] [sample.bad] sample.late Hne Hall Hmiss).
Defined.

(** X9 on the sample: the error line for "missing". *)
Lemma error_lines_name_unresolved_sample :
  Ev (Log logging.ERROR "Device %s not in happi database; skipping" ["missing"])
    ∈ sample.check_config_file sample.config None
  /\ exists (n : string) (dc : DeviceConfiguration sample.Checks) (rest : list string),
      ["missing"] = n :: rest
      /\ (n, dc) ∈ devices sample.config
      /\ check.retained None (Some n) = true
      /\ check.resolves sample.happi n = false.
Proof.
  assert (Ev (Log logging.ERROR "Device %s not in happi database; skipping" ["missing"])
            ∈ sample.check_config_file sample.config None) as Hin.
  { vm_compute. repeat first [apply list_elem_of_here | apply list_elem_of_further]. }
  split; [exact Hin|].
  apply (error_lines_name_unresolved
           sample.device_name sample.cls_name sample.new_device
           sample.pv_config_to_device_config sample.check_device sample.happi
           sample.config None _ _ Hin).
Defined.

(** X11 on a path without any dot. *)
Lemma get_tab_name_adds_extension_sample :
  window.contains_char "." "/home/operator/checkout" = false
  /\ window.get_tab_name (Some "/home/operator/checkout") =
     window.basename "/home/operator/checkout" +:+ ".json"
  /\ window.endswith (window.get_tab_name (Some "/home/operator/checkout")) ".json"
     = true.
Proof.
  split; [reflexivity|].
  apply (get_tab_name_adds_extension "/home/operator/checkout"). reflexivity.
Defined.

(** X12 on a file without extension in a dotted directory. *)
Lemma get_tab_name_dotted_directory_sample :
  window.contains_char "." "/home/operator/conf.d" = true
  /\ window.contains_char "/" "checkout" = false
  /\ window.contains_char "." "checkout" = false
  /\ window.get_tab_name (Some ("/home/operator/conf.d" +:+ "/" +:+ "checkout"))
     = "checkout"
  /\ window.contains_char "."
       (window.get_tab_name (Some ("/home/operator/conf.d" +:+ "/" +:+ "checkout")))
     = false.
Proof.
  split; [reflexivity|]. split; [reflexivity|]. split; [reflexivity|].
  apply (get_tab_name_dotted_directory "/home/operator/conf.d" "checkout");
    reflexivity.
Defined.

(** X15 on a save whose write fails. *)
Lemma save_as_failure_keeps_path_sample :
  let result :=
    window.save_as (Some 7) (Some "/tmp/checkout.json") "" false (Some "/tmp/old.json") in
  ((Some 7 : option Z) = None \/ false = false)
  /\ result.2 = Some "/tmp/old.json"
  /\ (forall text, window.SetTabText text ∉ result.1)
  /\ (exists msg, window.LogException msg ∈ result.1)
  /\ ((Some 7 : option Z) = None ->
      result.1 = [window.LogException "Error serializing file"])
  /\ (forall f, window.WriteRaised f ∈ result.1 ->
        is_Some (Some 7 : option Z) /\ window.endswith f ".json" = true).
Proof.
  intros result. split; [right; reflexivity|].
  apply (save_as_failure_keeps_path (Some 7) (Some "/tmp/checkout.json") "" false
           (Some "/tmp/old.json")).
  right. reflexivity.
Defined.

(** X16 on a first save under a name chosen in the dialog, without
    extension, followed by a plain save. *)
Lemma save_after_save_as_sample :
  (window.save_as (Some 7) None "/tmp/checkout" true None).2 = Some "/tmp/checkout.json"
  /\ window.save (Some 8) "" true (Some "/tmp/checkout.json") =
     ([window.WriteFile "/tmp/checkout.json" 8;
       window.SetTabText (window.get_tab_name (Some "/tmp/checkout.json"))],
      Some "/tmp/checkout.json").
Proof.
  split; [reflexivity|].
  apply (save_after_save_as 7 8 None "/tmp/checkout" "" None "/tmp/checkout.json").
  reflexivity.
Defined.

(** X22 on a callback registered with a [cb_info] and a [value] keyword of
    its own. *)
Lemma run_callback_keywords_sample :
  let kwargs : gmap string pyepics_compat.PyVal :=
    {[ "cb_info" := pyepics_compat.VOther 1; "value" := pyepics_compat.VOther 2 ]} in
  let self :=
    (pyepics_compat.add_callback
       (pyepics_compat.__init__ "XPP:PV" pyepics_compat.NotCallable None None None)
       (Some 7%nat) None false kwargs).1.1 in
  pyepics_compat.callbacks self !! 1 =
    Some (pyepics_compat.wrap_callback "monitor" 7, kwargs)
  /\ exists kwd : gmap string pyepics_compat.PyVal,
      pyepics_compat.run_callback self 1 =
        [pyepics_compat.mkCall (pyepics_compat.wrap_callback "monitor" 7) [] kwd]
      /\ kwd !! "cb_info" =
         Some (pyepics_compat.VTuple2 (pyepics_compat.VInt 1) pyepics_compat.VSelf)
      /\ forall k : string,
          k <> "cb_info" ->
          kwd !! k = match kwargs !! k with
                     | Some v => Some v
                     | None => pyepics_compat._args self !! k
                     end.
Proof.
  intros kwargs self.
  assert (pyepics_compat.callbacks self !! 1 =
          Some (pyepics_compat.wrap_callback "monitor" 7, kwargs)) as H
    by reflexivity.
  split; [exact H|].
  apply (run_callback_keywords self 1 _ kwargs H).
Defined.

(** X23 on a fresh PV, asked for its "value". *)
Lemma init_args_sample :
  let self :=
    pyepics_compat.__init__ "XPP:PV" pyepics_compat.NotCallable (Some 3) None None in
  ("value" ∉ ["pvname"; "count"; "nelm"; "type"; "typefull"; "access"])
  /\ pyepics_compat._getarg self "value" = pyepics_compat.VNone
  /\ pyepics_compat._getarg self "pvname" = pyepics_compat.VStr "XPP:PV"
  /\ pyepics_compat._getarg self "count" = pyepics_compat.int_or_none (Some 3)
  /\ pyepics_compat._getarg self "nelm" = pyepics_compat.VInt (-1)
  /\ pyepics_compat._getarg self "type" = pyepics_compat.VStr "unknown"
  /\ pyepics_compat._getarg self "typefull" = pyepics_compat.VStr "unknown"
  /\ pyepics_compat._getarg self "access" = pyepics_compat.VStr "unknown"
  /\ pyepics_compat.get_ctrlvars self !! "lower_ctrl_limit" = None
  /\ pyepics_compat.get_ctrlvars self !! "lower_disp_limit" = None
  /\ pyepics_compat.get_ctrlvars self !! "lower_ctrl_limitlower_disp_limit"
     = Some pyepics_compat.VNone.
Proof.
  intros self.
  assert ("value" ∉ ["pvname"; "count"; "nelm"; "type"; "typefull"; "access"]) as H.
  { rewrite !not_elem_of_cons. repeat split; try discriminate. apply not_elem_of_nil. }
  split; [exact H|].
  apply (init_args "XPP:PV" pyepics_compat.NotCallable (Some 3) None None "value" H).
Defined.

(** X26 on a selection edited into itself, reordered. *)
Lemma edit_items_same_members_sample :
  (forall x, x ∈ ["a"; "b"] <-> x ∈ ["b"; "a"; "a"])
  /\ utils.edit_items false None ["a"; "b"] ["b"; "a"; "a"] = inr [].
Proof.
  assert (forall x, x ∈ ["a"; "b"] <-> x ∈ ["b"; "a"; "a"]) as H.
  { intros x. rewrite !elem_of_cons, !elem_of_nil. tauto. }
  split; [exact H|].
  apply (edit_items_same_members false None ["a"; "b"] ["b"; "a"; "a"] H).
Defined.

(** X27 on a selection of three edited into four, against a list that
    holds one of the new items already. *)
Lemma edit_items_touches_differences_sample :
  let calls := [utils._edit_item "a" "x"; utils._edit_item "c" "y"] in
  let call := utils._edit_item "c" "y" in
  utils.edit_items false (Some ["a"; "b"; "c"; "d"]) ["a"; "b"; "c"] ["b"; "x"; "d"; "y"]
    = inr calls
  /\ call ∈ calls
  /\ (forall old, utils.outgoing call = Some old ->
        old ∈ ["a"; "b"; "c"] /\ (old ∉ ["b"; "x"; "d"; "y"]))
  /\ (forall new, utils.incoming call = Some new ->
        new ∈ ["b"; "x"; "d"; "y"] /\ (new ∉ ["a"; "b"; "c"])
        /\ (false = false ->
            forall current, Some ["a"; "b"; "c"; "d"] = Some current -> new ∉ current)).
Proof.
  intros calls call.
  assert (utils.edit_items false (Some ["a"; "b"; "c"; "d"]) ["a"; "b"; "c"]
            ["b"; "x"; "d"; "y"] = inr calls) as Hcalls by reflexivity.
  assert (call ∈ calls) as Hcall by (apply list_elem_of_further, list_elem_of_here).
  split; [exact Hcalls|]. split; [exact Hcall|].
  apply (edit_items_touches_differences false (Some ["a"; "b"; "c"; "d"])
           ["a"; "b"; "c"] ["b"; "x"; "d"; "y"] calls call Hcalls Hcall).
Defined.

(** X28 on a selection of three edited into one. *)
Lemma edit_items_edits_then_rest_sample :
  utils.edit_items true None ["a"; "b"; "c"] ["b"; "x"] =
    inr [utils._edit_item "a" "x"; utils._remove_item "c"]
  /\ exists old_uniques new_uniques : list string,
      old_uniques = utils.not_in ["a"; "b"; "c"] ["b"; "x"]
      /\ new_uniques ⊆ utils.not_in ["b"; "x"] ["a"; "b"; "c"]
      /\ [utils._edit_item "a" "x"; utils._remove_item "c"] =
         map (fun pair : string * string => utils._edit_item pair.1 pair.2)
           (zip old_uniques new_uniques) ++
         map utils._remove_item (drop (length new_uniques) old_uniques) ++
         map utils._add_item (drop (length old_uniques) new_uniques)
      /\ (drop (length new_uniques) old_uniques = []
          \/ drop (length old_uniques) new_uniques = []).
Proof.
  assert (utils.edit_items true None ["a"; "b"; "c"] ["b"; "x"] =
          inr [utils._edit_item "a" "x"; utils._remove_item "c"]) as H by reflexivity.
  split; [exact H|].
  apply (edit_items_edits_then_rest true None ["a"; "b"; "c"] ["b"; "x"] _ H).
Defined.
